(** * Generic exporter operator: registry, config merge, probes, reconciliation

    A shallow embedding of the charm's Python sources

      - [snap_singleton.py]  (file-based registration of units per snap),
      - [utils.py]           (flatten/merge of nested configs, retried probes),
      - [config.py]          (required-field check),
      - [charm.py]           (reconcile / remove handlers),

    followed by the properties established about them.

    Conventions.  Python [str] values are Rocq strings whose characters are
    read as the code points 0..255.  A Python exception is a value of [exn];
    a call that may raise returns a [result].  The lock directory is the
    finite set of the file names it contains; it is taken to exist and to be
    readable and writable, so that [_ensure_lock_dir_exists] and the file
    operations fail for no other reason than a missing file. *)

From Stdlib Require Import ZArith Lia Ascii DecimalString.
From Stdlib Require String.
From stdpp Require Import base gmap sets list strings.

Local Open Scope Z_scope.
#[local] Set Warnings "-clear-no-such-hyp".

(** ** Exceptions and results *)

Inductive exn :=
| FileNotFoundError (path : string)
| ValueError (msg : string)
| RetryError
| SecretAccessError (msg : string)
| SecretInvalidContentError (msg : string)
| CharmConfigError (msg : string)
| CharmInstallError (msg : string)
| CharmStatusError (msg : string)
| CharmUninstallError (msg : string).

Inductive result (A : Type) :=
| Ok (a : A)
| Raise (e : exn).
Arguments Ok {A} a.
Arguments Raise {A} e.

(** ** Python string primitives *)

Module Py.

(** [sep.join(parts)]. *)
Fixpoint join (sep : string) (parts : list string) : string :=
  match parts with
  | [] => ""
  | [p] => p
  | p :: rest => p +:+ sep +:+ join sep rest
  end.

Fixpoint drop_chars (n : nat) (s : string) : string :=
  match n, s with
  | S k, String _ rest => drop_chars k rest
  | _, _ => s
  end.

(** [s.split(sep)] for a non-empty [sep]: the pieces between the successive
    leftmost, non-overlapping occurrences of [sep].  [skip] counts the
    characters of a matched separator that are still to be passed over. *)
Fixpoint split_go (sep : string) (skip : nat) (s : string) : list string :=
  match s with
  | EmptyString => [""]
  | String c rest =>
      match skip with
      | S k => split_go sep k rest
      | O =>
          if String.prefix sep s
          then "" :: split_go sep (Nat.pred (String.length sep)) rest
          else match split_go sep O rest with
               | piece :: pieces => String c piece :: pieces
               | [] => [String c ""]
               end
      end
  end.

Definition split (sep s : string) : list string := split_go sep O s.

(** [a, b = parts]: unpacking into exactly two targets. *)
Definition unpack2 (parts : list string) : result (string * string) :=
  match parts with
  | [a; b] => Ok (a, b)
  | [] | [_] => Raise (ValueError "not enough values to unpack (expected 2)")
  | _ => Raise (ValueError "too many values to unpack (expected 2)")
  end.

Fixpoint map_chars (f : ascii → ascii) (s : string) : string :=
  match s with
  | EmptyString => EmptyString
  | String c rest => String (f c) (map_chars f rest)
  end.

Definition in_range (lo hi n : N) : bool := ((lo <=? n) && (n <=? hi))%N.

(** The class [[\w-]] of [re] on [str] patterns, for the code points below
    256: ASCII letters, digits, underscore and dash, and the Latin-1
    characters that [str.isalnum] accepts. *)
Definition re_word_or_dash (c : ascii) : bool :=
  let n := N_of_ascii c in
  (n =? 45)%N || in_range 48 57 n || in_range 65 90 n || (n =? 95)%N
  || in_range 97 122 n || (n =? 170)%N || in_range 178 179 n || (n =? 181)%N
  || in_range 185 186 n || in_range 188 190 n || in_range 192 214 n
  || in_range 216 246 n || in_range 248 255 n.

(** [s.replace(old, new)] for single characters. *)
Definition replace_char (old new : ascii) (s : string) : string :=
  map_chars (λ c, if decide (c = old) then new else c) s.

End Py.

(** ** snap_singleton.py *)

Module SnapRegistrationFile.

Record t := mk { unit_name : string; snap_name : string }.

Definition PREFIX : string := "LCK..".
Definition SEPARATOR_UNIT : string := "__".

(** [re.sub(r"[^\w-]", "_", name)] *)
Definition _normalize_name (name : string) : string :=
  Py.map_chars (λ c, if Py.re_word_or_dash c then c else "_"%char) name.

Definition filename (self : t) : string :=
  PREFIX +:+ snap_name self +:+ SEPARATOR_UNIT +:+ _normalize_name (unit_name self).

Definition from_filename (filename : string) : result t :=
  match Py.unpack2 (Py.split PREFIX filename) with
  | Raise e => Raise e
  | Ok (_, filename) =>
      match Py.unpack2 (Py.split SEPARATOR_UNIT filename) with
      | Raise e => Raise e
      | Ok (snap_name, unit_name) =>
          Ok {| unit_name := unit_name; snap_name := snap_name |}
      end
  end.

End SnapRegistrationFile.

Module SingletonSnapManager.

Record t := mk { unit_name : string }.

(** [register]: opening the record's file for writing creates it (or
    truncates it when it is already there). *)
Definition register (self : t) (snap_name : string) (lock_dir : gset string)
  : result unit * gset string :=
  let registration_file :=
    SnapRegistrationFile.mk (unit_name self) snap_name in
  (Ok tt, {[ SnapRegistrationFile.filename registration_file ]} ∪ lock_dir).

(** [unregister]: [os.remove] raises [FileNotFoundError] on a missing file
    and leaves the directory as it was. *)
Definition unregister (self : t) (snap_name : string) (lock_dir : gset string)
  : result unit * gset string :=
  let registration_file :=
    SnapRegistrationFile.mk (unit_name self) snap_name in
  let path := SnapRegistrationFile.filename registration_file in
  if decide (path ∈ lock_dir)
  then (Ok tt, lock_dir ∖ {[ path ]})
  else (Raise (FileNotFoundError path), lock_dir).

(** The body of the [for filename in os.listdir(...)] loop of [get_units]. *)
Fixpoint get_units_loop (snap_name : string) (listing : list string)
    (units : gset string) : result (gset string) :=
  match listing with
  | [] => Ok units
  | filename :: listing' =>
      match SnapRegistrationFile.from_filename filename with
      | Raise e => Raise e
      | Ok registration_file =>
          get_units_loop snap_name listing'
            (if decide (SnapRegistrationFile.snap_name registration_file = snap_name)
             then units ∪ {[ SnapRegistrationFile.unit_name registration_file ]}
             else units)
      end
  end.

Definition get_units (snap_name : string) (lock_dir : gset string)
  : result (gset string) :=
  get_units_loop snap_name (elements lock_dir) ∅.

Definition is_used_by_other_units (self : t) (snap_name : string)
    (lock_dir : gset string) : result bool :=
  match get_units snap_name lock_dir with
  | Raise e => Raise e
  | Ok units =>
      Ok (existsb (λ unit, bool_decide (unit ≠ unit_name self)) (elements units))
  end.

End SingletonSnapManager.

(** ** utils.py *)

Module Utils.

(** JSON-like Python values.  A [dict] keeps its items in insertion order;
    floats are not modelled. *)
#[local] Set Warnings "-register-all".
Inductive value :=
| VNone
| VBool (b : bool)
| VInt (z : Z)
| VStr (s : string)
| VList (l : list value)
| VDict (items : list (string * value)).

Abbreviation dict := (list (string * value)).

(** [isinstance(v, dict)] *)
Definition is_dict (v : value) : bool :=
  match v with VDict _ => true | _ => false end.

(** [d.get(key)] / [key in d] *)
Fixpoint dict_get (key : string) (d : dict) : option value :=
  match d with
  | [] => None
  | (k, v) :: rest => if decide (k = key) then Some v else dict_get key rest
  end.

(** [d[key] = v]: an existing key keeps its position, a new key goes last. *)
Fixpoint dict_set (key : string) (v : value) (d : dict) : dict :=
  match d with
  | [] => [(key, v)]
  | (k, w) :: rest =>
      if decide (k = key) then (k, v) :: rest else (k, w) :: dict_set key v rest
  end.

(** [dict(items)] *)
Definition dict_of_items (items : dict) : dict :=
  fold_left (λ d kv, dict_set kv.1 kv.2 d) items [].

(** [d.keys()] as a set. *)
Definition keys (d : dict) : gset string := list_to_set (d.*1).

(** [f"{parent}.{k}" if parent else k] *)
Definition dotted (parent k : string) : string :=
  if decide (parent = "") then k else parent +:+ "." +:+ k.

(** The list [items] that [flatten_dict] accumulates before [dict(items)].
    The recursion is on the nesting of the value, the inner [loop] is the
    [for k, v in data.items()] loop. *)
Fixpoint flatten_value (v : value) (parent_key : string) {struct v} : dict :=
  match v with
  | VDict data =>
      (fix loop (data : dict) : dict :=
         match data with
         | [] => []
         | (k, v) :: rest =>
             let new_key := dotted parent_key k in
             match v with
             | VDict _ => dict_of_items (flatten_value v new_key) ++ loop rest
             | _ => (new_key, v) :: loop rest
             end
         end) data
  | _ => []
  end.

Definition flatten_items (data : dict) (parent_key : string) : dict :=
  flatten_value (VDict data) parent_key.

Definition flatten_dict (data : dict) (parent_key : string) : dict :=
  dict_of_items (flatten_items data parent_key).

(** [merge_dicts], by recursion on the nesting of [data_2]; the inner [loop]
    is the [for key, value in data_2.items()] loop and [result_] the copy of
    [data_1] that it updates. *)
Fixpoint merge_value (result_ : dict) (data_2 : value) (path : string)
    {struct data_2} : result dict :=
  match data_2 with
  | VDict items =>
      (fix loop (result_ : dict) (items : dict) {struct items} : result dict :=
         match items with
         | [] => Ok result_
         | (key, value) :: rest =>
             let current_path := dotted path key in
             match dict_get key result_ with
             | None => loop (dict_set key value result_) rest
             | Some cur =>
                 match cur, value with
                 | VDict cur_items, VDict _ =>
                     match merge_value cur_items value current_path with
                     | Raise e => Raise e
                     | Ok merged => loop (dict_set key (VDict merged) result_) rest
                     end
                 | _, _ =>
                     Raise (ValueError
                              ("The configs conflict at key: " +:+ current_path))
                 end
             end
         end) result_ items
  | _ => Ok result_
  end.

Definition merge_dicts (data_1 data_2 : dict) (path : string) : result dict :=
  merge_value data_1 (VDict data_2) path.

(** *** The [tenacity.retry] decorator

    One attempt calls the wrapped function; [fn n] is the outcome of the
    [n]-th call (from 1).  After an attempt, [retry] decides whether another
    one is wanted; if so and [stop_after_attempt] is reached, the exhaustion
    policy applies, otherwise the wrapper sleeps [wait_fixed] seconds and
    tries again. *)
Record retry_policy (A : Type) := {
  stop_after_attempt : nat;
  wait_fixed : Z;
  retry : result A → bool;
  retry_error_callback : option (result A → result A);
  reraise : bool
}.
Arguments stop_after_attempt {A} _.
Arguments wait_fixed {A} _.
Arguments retry {A} _ _.
Arguments retry_error_callback {A} _.
Arguments reraise {A} _.

(** What a retried call yields: its outcome, the number of attempts made and
    the seconds slept in between. *)
Record retried (A : Type) := {
  outcome : result A;
  attempts : nat;
  slept : Z
}.
Arguments outcome {A} _.
Arguments attempts {A} _.
Arguments slept {A} _.

Definition retry_if_result {A} (p : A → bool) (out : result A) : bool :=
  match out with Ok a => p a | Raise _ => false end.

Definition retry_if_exception_type {A} (is_type : exn → bool) (out : result A) : bool :=
  match out with Ok _ => false | Raise e => is_type e end.

Definition exhausted {A} (pol : retry_policy A) (out : result A) : result A :=
  match retry_error_callback pol with
  | Some callback => callback out
  | None =>
      if reraise pol
      then match out with Raise e => Raise e | Ok _ => Raise RetryError end
      else Raise RetryError
  end.

Fixpoint retry_from {A} (pol : retry_policy A) (fn : nat → result A)
    (remaining : nat) (attempt_number : nat) (slept_ : Z) : retried A :=
  let out := fn attempt_number in
  if negb (retry pol out)
  then {| outcome := out; attempts := attempt_number; slept := slept_ |}
  else match remaining with
       | O => {| outcome := exhausted pol out; attempts := attempt_number;
                 slept := slept_ |}
       | S remaining' =>
           retry_from pol fn remaining' (S attempt_number) (slept_ + wait_fixed pol)
       end.

Definition retrying {A} (pol : retry_policy A) (fn : nat → result A) : retried A :=
  retry_from pol fn (Nat.pred (stop_after_attempt pol)) 1%nat 0.

(** The policy on [check_metrics_endpoint] and on [SnapClient.check]. *)
Definition bool_probe_policy : retry_policy bool := {|
  stop_after_attempt := 5;
  wait_fixed := 2;
  retry := retry_if_result (λ x, negb x);
  retry_error_callback := Some (λ out, out);
  reraise := false
|}.

(** The policy on [decode_secret_with_retry]. *)
Definition secret_policy {A} : retry_policy A := {|
  stop_after_attempt := 3;
  wait_fixed := 5;
  retry := retry_if_exception_type
             (λ e, match e with SecretAccessError _ => true | _ => false end);
  retry_error_callback := None;
  reraise := true
|}.

(** What [requests.get] gives: a status code, or a [RequestException]. *)
Inductive http_reply := HttpStatus (code : Z) | RequestException.

Definition check_metrics_endpoint_body (reply : http_reply) : result bool :=
  match reply with
  | HttpStatus code => Ok (code =? 200)
  | RequestException => Ok false
  end.

Definition check_metrics_endpoint (get : nat → http_reply) : retried bool :=
  retrying bool_probe_policy (λ n, check_metrics_endpoint_body (get n)).

Definition decode_secret_with_retry (decode_secret : nat → result dict)
  : retried dict :=
  retrying secret_policy decode_secret.

End Utils.

(** ** snap_manager.py *)

Module SnapClient.

(** A service entry of [snap.services]: its ["active"] flag, when present. *)
Definition service := option bool.

(** The body of [check]: [all(service.get("active", False) ...)]. *)
Definition check_body (services : list (string * service)) : result bool :=
  Ok (forallb (λ s, default false s.2) services).

Definition check (services : nat → list (string * service)) : Utils.retried bool :=
  Utils.retrying Utils.bool_probe_policy (λ n, check_body (services n)).

End SnapClient.

(** ** config.py *)

Module Config.

Definition REQUIRED_FIELDS : list string := ["snap_name"; "exporter_port"].

Record CharmConfig := {
  snap_name : option string;
  exporter_port : option Z;
  snap_classic : bool;
  snap_channel : option string;
  snap_revision : option Z;
  snap_config : option Utils.dict;
  metrics_path : string;
  snap_plugs : option (list string);
  snap_config_secret : option string
}.

(** [CharmConfig()]: the defaults, after [check_channel_revision]. *)
Definition CharmConfig_init : CharmConfig := {|
  snap_name := None;
  exporter_port := None;
  snap_classic := false;
  snap_channel := Some "latest/stable";
  snap_revision := None;
  snap_config := None;
  metrics_path := "metrics";
  snap_plugs := None;
  snap_config_secret := None
|}.

(** [getattr(self, field, None) is None] *)
Definition getattr_is_none (self : CharmConfig) (field : string) : bool :=
  if decide (field = "snap_name") then bool_decide (snap_name self = None)
  else if decide (field = "exporter_port") then bool_decide (exporter_port self = None)
  else if decide (field = "snap_classic") then false
  else if decide (field = "snap_channel") then bool_decide (snap_channel self = None)
  else if decide (field = "snap_revision") then bool_decide (snap_revision self = None)
  else if decide (field = "snap_config") then
    match snap_config self with None => true | Some _ => false end
  else if decide (field = "metrics_path") then false
  else if decide (field = "snap_plugs") then bool_decide (snap_plugs self = None)
  else if decide (field = "snap_config_secret") then
    bool_decide (snap_config_secret self = None)
  else true.

(** The [for field in REQUIRED_FIELDS] loop of [check_required_fields]. *)
Fixpoint missing_loop (self : CharmConfig) (fields : list string)
    (missing_fields : list string) : list string :=
  match fields with
  | [] => missing_fields
  | field :: fields' =>
      missing_loop self fields'
        (if getattr_is_none self field
         then missing_fields ++ [Py.replace_char "_" "-" field]
         else missing_fields)
  end.

Definition check_required_fields (self : CharmConfig) : option (list string) :=
  match missing_loop self REQUIRED_FIELDS [] with
  | [] => None
  | missing_fields => Some missing_fields
  end.

Definition set_snap_revision (r : option Z) (c : CharmConfig) : CharmConfig :=
  {| snap_name := snap_name c; exporter_port := exporter_port c;
     snap_classic := snap_classic c; snap_channel := snap_channel c;
     snap_revision := r; snap_config := snap_config c;
     metrics_path := metrics_path c; snap_plugs := snap_plugs c;
     snap_config_secret := snap_config_secret c |}.

Definition set_snap_config (cfg : option Utils.dict) (c : CharmConfig) : CharmConfig :=
  {| snap_name := snap_name c; exporter_port := exporter_port c;
     snap_classic := snap_classic c; snap_channel := snap_channel c;
     snap_revision := snap_revision c; snap_config := cfg;
     metrics_path := metrics_path c; snap_plugs := snap_plugs c;
     snap_config_secret := snap_config_secret c |}.

End Config.

(** ** charm.py *)

Module Charm.

Import Config.

Inductive status :=
| MaintenanceStatus (message : string)
| ActiveStatus
| BlockedStatus (message : string).

Inductive confinement := STRICT | CLASSIC.

Record SnapInfo := {
  info_name : string;
  info_revision : option Z;
  info_confinement : confinement
}.

Inductive event :=
| InstallEvent
| ConfigChangedEvent
| UpdateStatusEvent
| RemoveEvent
| SecretChangedEvent
| RelationChangedEvent.

(** The calls the charm makes to its collaborators (the registry and the
    package manager boundary), in the order it makes them. *)
Inductive call :=
| Register (snap : string)
| Unregister (snap : string)
| IsUsedByOtherUnits (snap : string)
| SnapInstall (snap : string) (revision : Z) (classic : bool)
| SnapRemove (snap : string)
| SnapEnableAndStart (snap : string)
| SnapDisableAndStop (snap : string)
| SnapEnsure (snap : string) (revision : Z) (classic : bool)
| SnapGetConfig (snap : string)
| SnapUnset (snap : string) (keys : list string)
| SnapSet (snap : string) (config : Utils.dict)
| SnapConnect (snap : string) (plugs : list string)
| SnapCheck (snap : string)
| CheckMetricsEndpoint (url : string)
| SetWorkloadVersion (version : string)
| ConfigureAlerts
| RemoveRulesDir.

(** What the collaborators answer.  [load_config] is the outcome of the
    pydantic validation: the loaded options, or the messages of the
    [ValidationError].  [get_snap_info] is what [utils.get_snap_info]
    returns; the runs in which it raises are not among the runs of the model.  Every answer of the package manager may depend on the
    calls made so far; probes are also indexed by the attempt. *)
Record world := {
  unit_name : string;
  load_config : list string + CharmConfig;
  get_snap_info : string → option string → option SnapInfo;
  decode_secret : string → nat → result Utils.dict;
  cos_agent_related : bool;
  snap_version : list call → string → option string;
  snap_install : list call → string → Z → bool → bool;
  snap_remove : list call → string → bool;
  snap_enable_and_start : list call → string → bool;
  snap_disable_and_stop : list call → string → bool;
  snap_ensure : list call → string → Z → bool → bool;
  snap_get_config : list call → string → Utils.dict;
  snap_unset : list call → string → list string → bool;
  snap_set : list call → string → Utils.dict → bool;
  snap_connect : list call → string → list string → bool;
  snap_services : list call → string → nat → list (string * SnapClient.service);
  http_get : list call → string → nat → Utils.http_reply
}.

Record state := {
  installed_snap_name : option string;
  conf : CharmConfig;
  lock_dir : gset string;
  unit_status : option status;
  calls : list call
}.

Definition with_installed (n : option string) (st : state) : state :=
  {| installed_snap_name := n; conf := conf st; lock_dir := lock_dir st;
     unit_status := unit_status st; calls := calls st |}.
Definition with_conf (c : CharmConfig) (st : state) : state :=
  {| installed_snap_name := installed_snap_name st; conf := c;
     lock_dir := lock_dir st; unit_status := unit_status st; calls := calls st |}.
Definition with_lock_dir (d : gset string) (st : state) : state :=
  {| installed_snap_name := installed_snap_name st; conf := conf st;
     lock_dir := d; unit_status := unit_status st; calls := calls st |}.
Definition with_status (u : status) (st : state) : state :=
  {| installed_snap_name := installed_snap_name st; conf := conf st;
     lock_dir := lock_dir st; unit_status := Some u; calls := calls st |}.
Definition with_call (c : call) (st : state) : state :=
  {| installed_snap_name := installed_snap_name st; conf := conf st;
     lock_dir := lock_dir st; unit_status := unit_status st;
     calls := calls st ++ [c] |}.

(** A method of the charm: it reads and updates the state and may raise. *)
Definition M (A : Type) : Type := state → result A * state.

Definition ret {A} (a : A) : M A := λ st, (Ok a, st).
Definition raise {A} (e : exn) : M A := λ st, (Raise e, st).
Definition bind {A B} (m : M A) (k : A → M B) : M B :=
  λ st, match m st with
        | (Ok a, st') => k a st'
        | (Raise e, st') => (Raise e, st')
        end.

Notation "'let*' x ':=' m 'in' k" := (bind m (λ x, k))
  (at level 10, x name, m at level 100, k at level 200).
Notation "m '>>' k" := (bind m (λ _, k))
  (at level 100, k at level 200, right associativity).

Definition gets {A} (f : state → A) : M A := λ st, (Ok (f st), st).
Definition modify (f : state → state) : M unit := λ st, (Ok tt, f st).

(** A call to a collaborator: its answer is computed from the calls made
    before it, then the call is logged. *)
Definition ask {A} (c : call) (answer : list call → A) : M A :=
  λ st, (Ok (answer (calls st)), with_call c st).

(** Python's [str(x)] and truth values. *)
Definition str_exn (e : exn) : string :=
  match e with
  | FileNotFoundError path => "[Errno 2] No such file or directory: " +:+ path
  | ValueError msg | SecretAccessError msg | SecretInvalidContentError msg
  | CharmConfigError msg | CharmInstallError msg | CharmStatusError msg
  | CharmUninstallError msg => msg
  | RetryError => "RetryError"
  end.

Definition is_CharmError (e : exn) : bool :=
  match e with
  | CharmConfigError _ | CharmInstallError _ | CharmStatusError _
  | CharmUninstallError _ => true
  | _ => false
  end.

Definition str_opt (o : option string) : string := default "None" o.
Definition str_int (z : Z) : string := NilZero.string_of_int (Z.to_int z).
Definition str_opt_int (o : option Z) : string :=
  match o with Some z => str_int z | None => "None" end.
Definition repr_list (l : list string) : string :=
  "[" +:+ Py.join ", " ((λ x, "'" +:+ x +:+ "'") <$> l) +:+ "]".
Definition removeprefix (p s : string) : string :=
  if String.prefix p s then Py.drop_chars (String.length p) s else s.

Definition truthy_str (o : option string) : option string :=
  match o with
  | Some s => if decide (s = "") then None else Some s
  | None => None
  end.

Definition COS_AGENT_RELATION_NAME : string := "cos-agent".
Definition SEE_LOG : string := "See juju debug-log for details.".

Section Handlers.

Context (w : world).

(** [self.snap_client]: the client's snap name, when one is configured. *)
Definition snap_client (c : CharmConfig) : option string := truthy_str (snap_name c).

Definition _log_and_set_status (u : status) : M unit := modify (with_status u).

(** The registry, on the lock directory of the state. *)
Definition manager_register (manager : SingletonSnapManager.t) (snap : string) : M unit :=
  λ st, let '(r, d) := SingletonSnapManager.register manager snap (lock_dir st) in
        (r, with_call (Register snap) (with_lock_dir d st)).

Definition manager_unregister (manager : SingletonSnapManager.t) (snap : string) : M unit :=
  λ st, let '(r, d) := SingletonSnapManager.unregister manager snap (lock_dir st) in
        (r, with_call (Unregister snap) (with_lock_dir d st)).

Definition manager_is_used_by_other_units (manager : SingletonSnapManager.t)
    (snap : string) : M bool :=
  λ st, (SingletonSnapManager.is_used_by_other_units manager snap (lock_dir st),
         with_call (IsUsedByOtherUnits snap) st).

(** The retried probes, on the answers of the world. *)
Definition client_check (snap : string) : M bool :=
  λ st, (Utils.outcome (SnapClient.check (snap_services w (calls st) snap)),
         with_call (SnapCheck snap) st).

Definition check_metrics_endpoint (url : string) : M bool :=
  λ st, (Utils.outcome (Utils.check_metrics_endpoint (http_get w (calls st) url)),
         with_call (CheckMetricsEndpoint url) st).

Definition _remove : M unit :=
  let* stored := gets installed_snap_name in
  match stored with
  | None => ret tt
  | Some snap_name =>
      let manager := SingletonSnapManager.mk (unit_name w) in
      manager_unregister manager snap_name >>
      let* used := manager_is_used_by_other_units manager snap_name in
      (if negb used
       then let* removed := ask (SnapRemove snap_name) (λ h, snap_remove w h snap_name) in
            if negb removed
            then raise (CharmUninstallError
                          ("Failed to uninstall snap: " +:+ snap_name +:+ ". " +:+ SEE_LOG))
            else ret tt
       else ret tt) >>
      modify (with_installed None)
  end.

Definition _install : M unit :=
  let* c := gets conf in
  match snap_client c, snap_revision c with
  | Some name, Some revision =>
      let manager := SingletonSnapManager.mk (unit_name w) in
      manager_register manager name >>
      let* installed := ask (SnapInstall name revision (snap_classic c))
                            (λ h, snap_install w h name revision (snap_classic c)) in
      if negb installed
      then raise (CharmInstallError
                    ("Failed to install snap: " +:+ str_opt (snap_name c) +:+ ". " +:+ SEE_LOG))
      else
        modify (with_installed (snap_name c)) >>
        let* started := ask (SnapEnableAndStart name)
                            (λ h, snap_enable_and_start w h name) in
        if negb started
        then raise (CharmInstallError
                      ("Failed to start snap services for: " +:+ str_opt (snap_name c)
                       +:+ ". " +:+ SEE_LOG))
        else ret tt
  | _, _ => ret tt
  end.

Definition _check_status : M unit :=
  let* c := gets conf in
  match check_required_fields c with
  | Some (field :: fields) =>
      raise (CharmStatusError
               ("Missing required configuration fields: "
                +:+ Py.join ", " (field :: fields)))
  | _ =>
      (match snap_client c with
       | Some name =>
           let* active := client_check name in
           if negb active
           then raise (CharmStatusError
                         ("Snap services for " +:+ str_opt (snap_name c)
                          +:+ " are not active."))
           else ret tt
       | None => ret tt
       end) >>
      let url := "http://localhost:" +:+ str_opt_int (exporter_port c) +:+ "/"
                 +:+ metrics_path c in
      let* reachable := check_metrics_endpoint url in
      if negb reachable
      then raise (CharmStatusError
                    ("Metrics endpoint for " +:+ str_opt (snap_name c)
                     +:+ " is not reachable."))
      else if negb (cos_agent_related w)
      then raise (CharmStatusError
                    ("Missing relation: [" +:+ COS_AGENT_RELATION_NAME +:+ "]"))
      else ret tt
  end.

Definition _set_workload_version : M unit :=
  let* c := gets conf in
  match snap_client c with
  | Some name =>
      λ st, (Ok tt,
             with_call (SetWorkloadVersion
                          (default "unknown" (truthy_str (snap_version w (calls st) name))))
                       st)
  | None => modify (with_call (SetWorkloadVersion ""))
  end.

(** [_configure_alerts] only touches the alert rule files of the unit. *)
Definition _configure_alerts : M unit := modify (with_call ConfigureAlerts).

Definition _get_snap_config_diff : M (list string) :=
  let* c := gets conf in
  let* old_config :=
    match snap_client c with
    | Some name => ask (SnapGetConfig name) (λ h, snap_get_config w h name)
    | None => ret []
    end in
  let new_config := default [] (snap_config c) in
  let old_keys := Utils.keys (Utils.flatten_dict old_config "") in
  let new_keys := Utils.keys (Utils.flatten_dict new_config "") in
  ret (elements (old_keys ∖ new_keys)).

Definition _configure : M unit :=
  _set_workload_version >>
  _configure_alerts >>
  let* c := gets conf in
  match snap_client c, snap_revision c with
  | Some name, Some revision =>
      let failed what :=
        raise (CharmConfigError
                 ("Failed to " +:+ what +:+ str_opt (snap_name c) +:+ ". " +:+ SEE_LOG)) in
      ask (SnapDisableAndStop name) (λ h, snap_disable_and_stop w h name) >>
      let* ensured := ask (SnapEnsure name revision (snap_classic c))
                          (λ h, snap_ensure w h name revision (snap_classic c)) in
      if negb ensured then failed "configure snap: "
      else
        let* keys_to_unset := _get_snap_config_diff in
        (match keys_to_unset with
         | [] => ret tt
         | _ =>
             let* unset := ask (SnapUnset name keys_to_unset)
                               (λ h, snap_unset w h name keys_to_unset) in
             if negb unset
             then failed ("unset config keys " +:+ repr_list keys_to_unset +:+ " for snap: ")
             else ret tt
         end) >>
        (match snap_config c with
         | Some (item :: items) =>
             let* set := ask (SnapSet name (item :: items))
                             (λ h, snap_set w h name (item :: items)) in
             if negb set then failed "set config for snap: " else ret tt
         | _ => ret tt
         end) >>
        (match snap_plugs c with
         | Some (plug :: plugs) =>
             let* connected := ask (SnapConnect name (plug :: plugs))
                                   (λ h, snap_connect w h name (plug :: plugs)) in
             if negb connected
             then failed ("connect plugs " +:+ repr_list (plug :: plugs) +:+ " for snap: ")
             else ret tt
         | _ => ret tt
         end) >>
        let* started := ask (SnapEnableAndStart name)
                            (λ h, snap_enable_and_start w h name) in
        if negb started then failed "restart snap services for: " else ret tt
  | _, _ => ret tt
  end.

Definition _validate_config : M unit :=
  match load_config w with
  | inl messages =>
      raise (CharmConfigError
               ("Invalid configuration: "
                +:+ Py.join ", " (removeprefix "Value error, " <$> messages)))
  | inr config =>
      let* config :=
        match truthy_str (snap_name config) with
        | Some name =>
            match get_snap_info w name (snap_channel config) with
            | None =>
                raise (CharmConfigError
                         ("Could not fetch info for snap " +:+ name +:+ ". " +:+ SEE_LOG))
            | Some snap_info =>
                let revision :=
                  match info_revision snap_info with
                  | Some r => if decide (r = 0) then snap_revision config else Some r
                  | None => snap_revision config
                  end in
                let config := set_snap_revision revision config in
                match snap_channel config, snap_revision config with
                | Some channel, None =>
                    raise (CharmConfigError
                             ("Could not determine revision for snap " +:+ name
                              +:+ " on channel " +:+ channel +:+ "."))
                | _, _ =>
                    match info_confinement snap_info, snap_classic config with
                    | CLASSIC, false =>
                        raise (CharmConfigError
                                 ("Snap " +:+ name +:+ " requires classic confinement. "
                                  +:+ "Please enable 'snap-classic'."))
                    | _, _ => ret config
                    end
                end
            end
        | None => ret config
        end in
      let* config :=
        match truthy_str (snap_config_secret config) with
        | Some secret_id =>
            match Utils.outcome (Utils.decode_secret_with_retry (decode_secret w secret_id)) with
            | Raise e => raise (CharmConfigError (str_exn e))
            | Ok secret_config =>
                match Utils.merge_dicts secret_config (default [] (snap_config config)) "" with
                | Raise e => raise (CharmConfigError (str_exn e))
                | Ok merged => ret (set_snap_config (Some merged) config)
                end
            end
        | None => ret config
        end in
      modify (with_conf config)
  end.

(** The [try] block of [reconcile]. *)
Definition reconcile_body (ev : event) : M unit :=
  _validate_config >>
  let* stored := gets installed_snap_name in
  let* c := gets conf in
  (if decide (stored ≠ snap_name c)
   then _log_and_set_status (MaintenanceStatus "Installing charm resources") >>
        _remove >> _install
   else ret tt) >>
  (match ev with
   | ConfigChangedEvent =>
       _log_and_set_status (MaintenanceStatus "Updating configuration") >> _configure
   | _ => ret tt
   end) >>
  _check_status >>
  _log_and_set_status ActiveStatus.

(** [reconcile]: a [CharmError] becomes the blocked status, any other
    exception leaves the handler. *)
Definition reconcile (ev : event) : M unit :=
  λ st, match reconcile_body ev st with
        | (Raise e, st') =>
            if is_CharmError e
            then _log_and_set_status (BlockedStatus (str_exn e)) st'
            else (Raise e, st')
        | done => done
        end.

(** [remove]: the alert rule files of the unit are deleted, when there are
    any, and then [_remove] runs; nothing is caught. *)
Definition remove : M unit :=
  _log_and_set_status (MaintenanceStatus "Removing charm resources") >>
  modify (with_call RemoveRulesDir) >>
  _remove.

End Handlers.

End Charm.

(** ** config.py: the validators of the options *)

Module Validators.

Import Config Utils.

(** [str.isspace] on one character, for the code points below 256. *)
Definition is_space (c : ascii) : bool :=
  let n := N_of_ascii c in
  Py.in_range 9 13 n || Py.in_range 28 32 n || (n =? 133)%N || (n =? 160)%N.

(** [s.lstrip(chars)] and [s.rstrip(chars)], for the set of characters that
    [p] accepts. *)
Fixpoint lstrip (p : ascii → bool) (s : string) : string :=
  match s with
  | EmptyString => EmptyString
  | String c rest => if p c then lstrip p rest else s
  end.

Fixpoint rstrip (p : ascii → bool) (s : string) : string :=
  match s with
  | EmptyString => EmptyString
  | String c rest =>
      match rstrip p rest with
      | EmptyString => if p c then EmptyString else String c EmptyString
      | kept => String c kept
      end
  end.

(** [s.strip()] *)
Definition strip (s : string) : string := lstrip is_space (rstrip is_space s).

Definition validate_snap_name (v : value) : result value :=
  match v with
  | VNone => Ok v
  | VStr s =>
      if decide (strip s = "")
      then Raise (ValueError "snap-name must be a non-empty string")
      else Ok (VStr (strip s))
  | _ => Raise (ValueError "snap-name must be a non-empty string")
  end.

Definition validate_channel (v : value) : result value :=
  match v with
  | VNone => Ok VNone
  | VStr s =>
      if decide (strip s = "")
      then Raise (ValueError "snap-channel must be a non-empty string")
      else Ok (VStr (strip s))
  | _ => Raise (ValueError "snap-channel must be a non-empty string")
  end.

Definition normalize_metrics_path (v : string) : string :=
  lstrip (λ c, bool_decide (c = "/"%char)) (strip v).

(** [validate_snap_plug], on the value of a string option. *)
Definition validate_snap_plug (v : option string) : result (option (list string)) :=
  match v with
  | None => Ok None
  | Some v =>
      let plugs :=
        strip <$> filter (λ plug, strip plug ≠ "") (Py.split "," v) in
      match plugs with
      | [] => Raise (ValueError "snap-plugs must contain at least one valid plug name")
      | _ => Ok (Some plugs)
      end
  end.

Definition set_snap_channel (ch : option string) (c : CharmConfig) : CharmConfig :=
  {| snap_name := snap_name c; exporter_port := exporter_port c;
     snap_classic := snap_classic c; snap_channel := ch;
     snap_revision := snap_revision c; snap_config := snap_config c;
     metrics_path := metrics_path c; snap_plugs := snap_plugs c;
     snap_config_secret := snap_config_secret c |}.

Definition check_channel_revision (self : CharmConfig) : result CharmConfig :=
  match snap_channel self, snap_revision self with
  | Some ch, Some _ =>
      if decide (ch = "") then Ok self
      else Raise (ValueError "snap-channel and snap-revision cannot both be set")
  | None, None => Ok (set_snap_channel (Some "latest/stable") self)
  | _, _ => Ok self
  end.

End Validators.

(** * Properties *)

(** ** Vocabulary of the statements *)

Module Registry.

Import SnapRegistrationFile.

(** The character [c] occurs in [s]. *)
Fixpoint has_char (c : ascii) (s : string) : bool :=
  match s with
  | EmptyString => false
  | String c' rest => bool_decide (c' = c) || has_char c rest
  end.

(** [f] is cut by [str.split] into exactly two pieces around ["LCK.."], and
    its second piece into exactly two pieces around ["__"]. *)
Definition well_split (f : string) : Prop :=
  ∃ pre rest snap unit,
    Py.split PREFIX f = [pre; rest] ∧ Py.split SEPARATOR_UNIT rest = [snap; unit].

(** [f] is the file name of the record it parses to. *)
Definition record_file (f : string) : Prop :=
  ∃ r, from_filename f = Ok r ∧ filename r = f.

(** A directory that holds registration records only. *)
Definition records_only (d : gset string) : Prop :=
  ∀ f, f ∈ d → record_file f.

(** [f] is the prefix, a snap name, the separator and a unit name, the
    separator being the only one that [str.split] finds after the prefix. *)
Definition prefixed_form (f : string) : Prop :=
  ∃ snap unit,
    f = PREFIX +:+ snap +:+ SEPARATOR_UNIT +:+ unit ∧
    Py.split SEPARATOR_UNIT (snap +:+ SEPARATOR_UNIT +:+ unit) = [snap; unit].

(** The file written for [unit] and [snap] parses back to [snap] and to the
    normalized name of [unit]. *)
Definition encodable (unit snap : string) : Prop :=
  from_filename (filename (mk unit snap)) = Ok (mk (_normalize_name unit) snap).

End Registry.

Module Merge.

Import Utils.

(** The key [ks] reached from [path], as [merge_dicts] builds it. *)
Definition dotted_path (path : string) (ks : list string) : string :=
  fold_left dotted ks path.

(** [collide d1 d2 ks]: following the keys [ks] leads, through keys that are
    maps on both sides, to a key that both sides have and that is not a map
    on both sides. *)
Inductive collide : dict → dict → list string → Prop :=
| collide_here d1 d2 k v1 v2 :
    dict_get k d1 = Some v1 → dict_get k d2 = Some v2 →
    is_dict v1 && is_dict v2 = false →
    collide d1 d2 [k]
| collide_below d1 d2 k sub1 sub2 ks :
    dict_get k d1 = Some (VDict sub1) → dict_get k d2 = Some (VDict sub2) →
    collide sub1 sub2 ks →
    collide d1 d2 (k :: ks).

(** No key occurs twice in a map, at any depth: what every Python [dict]
    satisfies. *)
Fixpoint unique_keys_value (v : value) : bool :=
  match v with
  | VDict d =>
      (fix loop (d : dict) : bool :=
         match d with
         | [] => true
         | (k, v) :: rest =>
             bool_decide (dict_get k rest = None) && unique_keys_value v && loop rest
         end) d
  | _ => true
  end.

Definition unique_keys (d : dict) : bool := unique_keys_value (VDict d).

(** The keys that the item [(k, v)] contributes to the flattened map. *)
Definition item_keys (k : string) (v : value) (parent_key : string) : gset string :=
  match v with
  | VDict sub => keys (flatten_dict sub (dotted parent_key k))
  | _ => {[ dotted parent_key k ]}
  end.

End Merge.

Module Scenario.

Import Config Charm.

(** The steps of [reconcile] that come before [_check_status]. *)
Definition before_check (w : world) (ev : event) : M unit :=
  _validate_config w >>
  let* stored := gets installed_snap_name in
  let* c := gets conf in
  (if decide (stored ≠ snap_name c)
   then _log_and_set_status (MaintenanceStatus "Installing charm resources") >>
        _remove w >> _install w
   else ret tt) >>
  (match ev with
   | ConfigChangedEvent =>
       _log_and_set_status (MaintenanceStatus "Updating configuration") >> _configure w
   | _ => ret tt
   end).

(** Calls that neither touch the registry nor install or remove a snap. *)
Definition benign (c : call) : Prop :=
  match c with
  | Register _ | Unregister _ | SnapInstall _ _ _ | SnapRemove _ => False
  | _ => True
  end.

(** From [st] to [st']: the installed name and the lock directory are kept and
    only benign calls are made. *)
Definition quiet (st st' : state) : Prop :=
  installed_snap_name st' = installed_snap_name st ∧
  lock_dir st' = lock_dir st ∧
  ∃ delta, calls st' = calls st ++ delta ∧ Forall benign delta.

Definition preserves {A} (m : M A) : Prop := ∀ st, quiet st (m st).2.

(** The required fields that [c] lacks, under their option names. *)
Definition missing_names (c : CharmConfig) : list string :=
  (if snap_name c is None then ["snap-name"] else [])
  ++ (if exporter_port c is None then ["exporter-port"] else []).

(** A configuration as the charm loads it, with the given snap name and
    exporter port. *)
Definition config_of (name : option string) (port : option Z) : CharmConfig := {|
  snap_name := name;
  exporter_port := port;
  snap_classic := false;
  snap_channel := Some "latest/stable";
  snap_revision := None;
  snap_config := None;
  metrics_path := "metrics";
  snap_plugs := None;
  snap_config_secret := None
|}.

(** A world in which the store knows every snap at revision 1, the probes
    pass, and the package manager answers [install_ok] to an install,
    [remove_ok] to a removal and succeeds otherwise. *)
Definition world_of (me : string) (c : CharmConfig) (install_ok remove_ok : bool)
  : world := {|
  unit_name := me;
  load_config := inr c;
  get_snap_info := λ name _,
    Some {| info_name := name; info_revision := Some 1; info_confinement := STRICT |};
  decode_secret := λ id _, Raise (SecretAccessError ("Secret '" +:+ id +:+ "' does not exist."));
  cos_agent_related := true;
  snap_version := λ _ _, Some "1.0.0";
  snap_install := λ _ _ _ _, install_ok;
  snap_remove := λ _ _, remove_ok;
  snap_enable_and_start := λ _ _, true;
  snap_disable_and_stop := λ _ _, true;
  snap_ensure := λ _ _ _ _, true;
  snap_get_config := λ _ _, [];
  snap_unset := λ _ _ _, true;
  snap_set := λ _ _ _, true;
  snap_connect := λ _ _ _, true;
  snap_services := λ _ _ _, [("exporter", Some true)];
  http_get := λ _ _ _, Utils.HttpStatus 200
|}.


(** [m] raises no exception outside [P]. *)
Definition raises_only {A} (P : exn → Prop) (m : M A) : Prop :=
  ∀ st e, (m st).1 = Raise e → P e.

Definition charm_error (e : exn) : Prop := is_CharmError e = true.

(** From a state that holds the configuration [c], [m] keeps it, makes only
    calls that [P] accepts and returns only values that [Q] accepts. *)
Definition makes {A} (c : CharmConfig) (P : call → Prop) (Q : A → Prop) (m : M A)
  : Prop :=
  ∀ st, conf st = c →
        conf (m st).2 = c ∧
        (∃ delta, calls (m st).2 = calls st ++ delta ∧ Forall P delta) ∧
        ∀ a, (m st).1 = Ok a → Q a.

(** Calls other than the unset of configuration keys. *)
Definition no_unset (cl : call) : Prop :=
  match cl with
  | SnapUnset _ _ => False
  | _ => True
  end.

(** The state of a unit at the start of a hook. *)
Definition state_of (stored : option string) (d : gset string) : state := {|
  installed_snap_name := stored;
  conf := CharmConfig_init;
  lock_dir := d;
  unit_status := None;
  calls := []
|}.

End Scenario.

Module Text.

Fixpoint all_chars (p : ascii → bool) (s : string) : bool :=
  match s with
  | EmptyString => true
  | String c rest => p c && all_chars p rest
  end.

Definition first_char (s : string) : option ascii :=
  match s with
  | EmptyString => None
  | String c _ => Some c
  end.

Fixpoint last_char (s : string) : option ascii :=
  match s with
  | EmptyString => None
  | String c EmptyString => Some c
  | String _ rest => last_char rest
  end.

(** [s] neither starts nor ends with a character of [p]. *)
Definition trimmed (p : ascii → bool) (s : string) : Prop :=
  (∀ c, first_char s = Some c → p c = false) ∧
  (∀ c, last_char s = Some c → p c = false).

(** [out] is [s] without the characters of [p] at its two ends. *)
Definition stripped_of (p : ascii → bool) (s out : string) : Prop :=
  ∃ l r, s = l +:+ out +:+ r ∧ all_chars p l = true ∧ all_chars p r = true ∧
         trimmed p out.

Definition is_slash (c : ascii) : bool := bool_decide (c = "/"%char).

End Text.

(** ** Strings *)

Lemma append_nil_l s : "" +:+ s = s.
Proof. reflexivity. Qed.

Lemma append_cons c a b : String c a +:+ b = String c (a +:+ b).
Proof. reflexivity. Qed.

Lemma prefix_drop sep s :
  String.prefix sep s = true → s = sep +:+ Py.drop_chars (String.length sep) s.
Proof.
  revert s. induction sep as [|c sep IH]; intros s H.
  - destruct s; reflexivity.
  - destruct s as [|c' s]; [discriminate|]. simpl in H.
    destruct (ascii_dec c c') as [->|]; [|discriminate].
    rewrite append_cons. simpl. f_equal. by apply IH.
Qed.

Lemma split_go_step sep c s :
  Py.split_go sep O (String c s) =
  if String.prefix sep (String c s)
  then "" :: Py.split_go sep (Nat.pred (String.length sep)) s
  else match Py.split_go sep O s with
       | piece :: pieces => String c piece :: pieces
       | [] => [String c ""]
       end.
Proof. reflexivity. Qed.

Lemma split_go_skip sep k c s :
  Py.split_go sep (S k) (String c s) = Py.split_go sep k s.
Proof. reflexivity. Qed.

Lemma split_go_cons sep k s : ∃ piece pieces, Py.split_go sep k s = piece :: pieces.
Proof.
  revert k. induction s as [|c s IH]; intros k; [simpl; by eauto|].
  destruct k as [|k]; [|rewrite split_go_skip; by apply IH].
  rewrite split_go_step.
  destruct (String.prefix sep (String c s)); [by eauto|].
  destruct (IH O) as (p & ps & ->). by eauto.
Qed.

Lemma join_cons sep p q qs :
  Py.join sep (p :: q :: qs) = p +:+ sep +:+ Py.join sep (q :: qs).
Proof. reflexivity. Qed.

Lemma join_cons_char sep c p ps :
  Py.join sep (String c p :: ps) = String c (Py.join sep (p :: ps)).
Proof. destruct ps; reflexivity. Qed.

(** Joining the pieces of a split with the separator gives the string back. *)
Lemma join_split_go sep s k :
  sep ≠ "" → Py.join sep (Py.split_go sep k s) = Py.drop_chars k s.
Proof.
  intros Hsep. revert k. induction s as [|c s IH]; intros k.
  - by destruct k.
  - destruct k as [|k]; [|rewrite split_go_skip; by apply IH].
    rewrite split_go_step.
    destruct (String.prefix sep (String c s)) eqn:Hp.
    + destruct (split_go_cons sep (Nat.pred (String.length sep)) s) as (p & ps & E).
      pose proof (IH (Nat.pred (String.length sep))) as IH'.
      rewrite E in *. rewrite join_cons, IH', append_nil_l.
      apply prefix_drop in Hp. etrans; [|symmetry; exact Hp].
      destruct sep; [done|]. reflexivity.
    + destruct (split_go_cons sep O s) as (p & ps & E).
      pose proof (IH O) as IH'. rewrite E in *.
      rewrite join_cons_char, IH'. reflexivity.
Qed.

Lemma split_two sep s a b :
  sep ≠ "" → Py.split sep s = [a; b] → s = a +:+ sep +:+ b.
Proof.
  intros Hsep E. pose proof (join_split_go sep s O Hsep) as J.
  unfold Py.split in E. rewrite E in J. symmetry. exact J.
Qed.

Lemma map_chars_cons f c s :
  Py.map_chars f (String c s) = String (f c) (Py.map_chars f s).
Proof. reflexivity. Qed.

Lemma word_underscore : Py.re_word_or_dash "_"%char = true.
Proof. vm_compute. reflexivity. Qed.

Lemma normalize_idempotent s :
  SnapRegistrationFile._normalize_name (SnapRegistrationFile._normalize_name s)
  = SnapRegistrationFile._normalize_name s.
Proof.
  unfold SnapRegistrationFile._normalize_name.
  induction s as [|c s IH]; [reflexivity|].
  rewrite !map_chars_cons, IH. f_equal.
  destruct (Py.re_word_or_dash c) eqn:E; [by rewrite E|].
  by rewrite word_underscore.
Qed.

(** ** Parsing file names *)

Lemma unpack2_ok parts a b : Py.unpack2 parts = Ok (a, b) ↔ parts = [a; b].
Proof.
  split; [|by intros ->].
  destruct parts as [|x [|y [|z parts]]]; simpl; intros H; by simplify_eq.
Qed.

Lemma unpack2_raise parts e : Py.unpack2 parts = Raise e → ∃ msg, e = ValueError msg.
Proof.
  destruct parts as [|x [|y [|z parts]]]; simpl; intros H; simplify_eq; eauto.
Qed.

Lemma from_filename_ok f r :
  SnapRegistrationFile.from_filename f = Ok r ↔
  ∃ pre rest,
    Py.split SnapRegistrationFile.PREFIX f = [pre; rest] ∧
    Py.split SnapRegistrationFile.SEPARATOR_UNIT rest
    = [SnapRegistrationFile.snap_name r; SnapRegistrationFile.unit_name r].
Proof.
  unfold SnapRegistrationFile.from_filename. split.
  - destruct (Py.unpack2 (Py.split _ f)) as [[pre rest]|] eqn:E1; [|done].
    destruct (Py.unpack2 (Py.split _ rest)) as [[s u]|] eqn:E2; [|done].
    intros [= <-]. apply unpack2_ok in E1, E2. by eauto.
  - intros (pre & rest & -> & E2). simpl. rewrite E2. by destruct r.
Qed.

Lemma from_filename_raise f e :
  SnapRegistrationFile.from_filename f = Raise e → ∃ msg, e = ValueError msg.
Proof.
  unfold SnapRegistrationFile.from_filename.
  destruct (Py.unpack2 (Py.split _ f)) as [[pre rest]|] eqn:E1.
  - destruct (Py.unpack2 (Py.split _ rest)) as [[s u]|] eqn:E2; [done|].
    intros [= <-]. by eapply unpack2_raise.
  - intros [= <-]. by eapply unpack2_raise.
Qed.

Lemma well_split_parses f :
  Registry.well_split f ↔ ∃ r, SnapRegistrationFile.from_filename f = Ok r.
Proof.
  split.
  - intros (pre & rest & s & u & E1 & E2).
    exists (SnapRegistrationFile.mk u s). apply from_filename_ok. by eauto.
  - intros (r & (pre & rest & E1 & E2)%from_filename_ok).
    unfold Registry.well_split. by eauto 6.
Qed.

(** A name that parses is some text, the prefix, the snap name, the
    separator and the unit name, in this order. *)
Lemma from_filename_shape f r :
  SnapRegistrationFile.from_filename f = Ok r →
  ∃ pre, f = pre +:+ SnapRegistrationFile.PREFIX
               +:+ SnapRegistrationFile.snap_name r
               +:+ SnapRegistrationFile.SEPARATOR_UNIT
               +:+ SnapRegistrationFile.unit_name r.
Proof.
  intros (pre & rest & E1 & E2)%from_filename_ok. exists pre.
  apply split_two in E1; [|done]. apply split_two in E2; [|done]. by subst.
Qed.

(** [str.split] and [from_filename] on a few names. *)
Example split_examples :
  Py.split "__" "a___b" = ["a"; "_b"] ∧
  Py.split "__" "a____b" = ["a"; ""; "b"] ∧
  Py.split "LCK.." "xLCK..a__b" = ["x"; "a__b"] ∧
  Py.split "LCK.." "LCK..LCK.." = [""; ""; ""] ∧
  Py.split "__" "" = [""].
Proof. repeat split. Qed.

Example from_filename_examples :
  SnapRegistrationFile.from_filename "LCK..node-exporter__unit-1"
  = Ok (SnapRegistrationFile.mk "unit-1" "node-exporter") ∧
  SnapRegistrationFile.from_filename "README"
  = Raise (ValueError "not enough values to unpack (expected 2)") ∧
  SnapRegistrationFile.from_filename "LCK..my__snap__unit-1"
  = Raise (ValueError "too many values to unpack (expected 2)").
Proof. repeat split. Qed.

(** *** When a file name parses back *)

Lemma has_char_cons c a s :
  Registry.has_char c (String a s) = bool_decide (a = c) || Registry.has_char c s.
Proof. reflexivity. Qed.

Lemma prefix_has_char sep s c :
  String.prefix sep s = true →
  Registry.has_char c sep = true → Registry.has_char c s = true.
Proof.
  revert s. induction sep as [|a sep IH]; intros s; [done|].
  destruct s as [|a' s]; [done|]. simpl String.prefix.
  destruct (ascii_dec a a') as [->|]; [|done].
  rewrite !has_char_cons. intros Hp [Ha|Hc]%orb_true_iff; apply orb_true_iff.
  - by left.
  - right. by apply IH.
Qed.

(** A string without some character of the separator is not cut. *)
Lemma split_absent sep s c :
  Registry.has_char c sep = true → Registry.has_char c s = false →
  Py.split sep s = [s].
Proof.
  intros Hsep. unfold Py.split. induction s as [|a s IH]; [done|].
  rewrite has_char_cons. intros [Ha Hs]%orb_false_iff. rewrite split_go_step.
  destruct (String.prefix sep (String a s)) eqn:Hp.
  - pose proof (prefix_has_char _ _ c Hp Hsep) as H.
    rewrite has_char_cons, Ha, Hs in H. done.
  - by rewrite (IH Hs).
Qed.

Lemma append_nil_r s : s +:+ "" = s.
Proof. induction s as [|a s IH]; [done|]. by rewrite append_cons, IH. Qed.

(** A string that starts with characters other than the first one of the
    separator is cut where its remainder is. *)
Lemma split_go_app sep c x s :
  String.prefix (String c "") sep = true →
  Registry.has_char c x = false →
  Py.split_go sep O (x +:+ s)
  = match Py.split_go sep O s with
    | piece :: pieces => (x +:+ piece) :: pieces
    | [] => []
    end.
Proof.
  intros Hc. induction x as [|a x IH].
  - intros _. rewrite append_nil_l. by destruct (Py.split_go sep O s).
  - rewrite has_char_cons. intros [Ha Hx]%orb_false_iff.
    rewrite append_cons, split_go_step.
    destruct (String.prefix sep (String a (x +:+ s))) eqn:Hp.
    + destruct sep as [|c' sep]; [done|]. simpl in Hc, Hp.
      destruct (ascii_dec c c') as [<-|]; [|done].
      destruct (ascii_dec c a) as [<-|]; [|done].
      by rewrite bool_decide_eq_false in Ha.
    + rewrite (IH Hx). by destruct (split_go_cons sep O s) as (p & ps & ->).
Qed.

Lemma prefix_append sep s : String.prefix sep (sep +:+ s) = true.
Proof.
  induction sep as [|a sep IH]; [by destruct s|].
  rewrite append_cons. simpl. by destruct (ascii_dec a a).
Qed.

Lemma split_go_skip_app sep x s :
  Py.split_go sep (String.length x) (x +:+ s) = Py.split_go sep O s.
Proof.
  induction x as [|a x IH]; [done|].
  rewrite append_cons. simpl String.length. by rewrite split_go_skip.
Qed.

(** A string that starts with the separator is cut there. *)
Lemma split_go_sep sep s :
  sep ≠ "" → Py.split_go sep O (sep +:+ s) = "" :: Py.split_go sep O s.
Proof.
  destruct sep as [|a sep]; [done|]. intros _.
  pose proof (prefix_append (String a sep) s) as Hp.
  rewrite append_cons in *. rewrite split_go_step, Hp.
  simpl String.length. simpl Nat.pred. by rewrite split_go_skip_app.
Qed.

(** A snap name without dot and underscore, and a unit whose normalized name
    [str.split] does not cut at ["__"], give a file name that parses back. *)
Lemma encodable_plain unit snap :
  Registry.has_char "." snap = false →
  Registry.has_char "_" snap = false →
  Py.split "__" (SnapRegistrationFile._normalize_name unit)
  = [SnapRegistrationFile._normalize_name unit] →
  Registry.encodable unit snap.
Proof.
  intros Hdot Hus Hunit.
  assert (Registry.has_char "." (SnapRegistrationFile._normalize_name unit) = false)
    as Hn.
  { unfold SnapRegistrationFile._normalize_name. clear.
    induction unit as [|a u IH]; [done|]. rewrite map_chars_cons, has_char_cons.
    apply orb_false_iff. split; [|exact IH].
    apply bool_decide_eq_false. destruct (Py.re_word_or_dash a) eqn:E; [|done].
    intros ->. by vm_compute in E. }
  set (n := SnapRegistrationFile._normalize_name unit) in *.
  assert (Py.split "__" (snap +:+ "__" +:+ n) = [snap; n]) as Hsep.
  { unfold Py.split. rewrite (split_go_app "__" "_" snap) by done.
    rewrite split_go_sep by done.
    unfold Py.split in Hunit. by rewrite Hunit, append_nil_r. }
  assert (Registry.has_char "." (snap +:+ "__" +:+ n) = false) as Hrest.
  { clear -Hdot Hn. induction snap as [|a x IH]; [exact Hn|].
    rewrite append_cons, has_char_cons. rewrite has_char_cons in Hdot.
    apply orb_false_iff in Hdot as [-> Hx]. by apply IH. }
  apply from_filename_ok. exists "", (snap +:+ "__" +:+ n). split; [|exact Hsep].
  unfold SnapRegistrationFile.filename, SnapRegistrationFile.PREFIX,
    SnapRegistrationFile.SEPARATOR_UNIT. simpl SnapRegistrationFile.snap_name.
  simpl SnapRegistrationFile.unit_name. fold n.
  unfold Py.split at 1. rewrite split_go_sep by done.
  fold (Py.split "LCK.." (snap +:+ "__" +:+ n)).
  by rewrite (split_absent "LCK.." _ "." eq_refl Hrest).
Qed.

(** ** Enumerating the holders of a snap *)

Section GetUnits.

Import SnapRegistrationFile.
Local Abbreviation get_units_loop := SingletonSnapManager.get_units_loop.
Local Abbreviation get_units := SingletonSnapManager.get_units.
Local Abbreviation is_used_by_other_units := SingletonSnapManager.is_used_by_other_units.

Lemma get_units_loop_raise X files acc e :
  get_units_loop X files acc = Raise e →
  ∃ f, f ∈ files ∧ from_filename f = Raise e.
Proof.
  revert acc. induction files as [|f files IH]; intros acc; simpl; [done|].
  destruct (from_filename f) as [r|e'] eqn:E.
  - intros (f' & Hf' & Ef')%IH. exists f'. split; [by right|done].
  - intros [= <-]. exists f. split; [by left|done].
Qed.

Lemma get_units_loop_ok X files acc us :
  get_units_loop X files acc = Ok us →
  (∀ f, f ∈ files → ∃ r, from_filename f = Ok r) ∧
  (∀ u, u ∈ us ↔ u ∈ acc ∨ ∃ f, f ∈ files ∧ from_filename f = Ok (mk u X)).
Proof.
  revert acc. induction files as [|f files IH]; intros acc; simpl.
  - intros [= <-]. split; [by intros f ?%elem_of_nil|].
    intros u. split; [by left|]. by intros [?|(f & ?%elem_of_nil & _)].
  - destruct (from_filename f) as [r|] eqn:E; [|done].
    intros [Hall Hus]%IH. split.
    + intros f' [->|?]%elem_of_cons; by eauto.
    + intros u. rewrite Hus. clear Hus. split.
      * intros [Hacc|(f' & Hf' & Ef')].
        -- destruct (decide (snap_name r = X)) as [HX|]; [|by left].
           apply elem_of_union in Hacc as [?|Hu%elem_of_singleton]; [by left|].
           right. exists f. split; [by left|]. rewrite E. destruct r. by simplify_eq/=.
        -- right. exists f'. split; [by right|done].
      * intros [Hacc|(f' & [->|Hf']%elem_of_cons & Ef')].
        -- left. destruct (decide (snap_name r = X)); set_solver.
        -- left. rewrite E in Ef'. injection Ef' as ->. simpl.
           rewrite decide_True by done. set_solver.
        -- right. by eauto.
Qed.

Lemma get_units_raise X d e :
  get_units X d = Raise e → ∃ f, f ∈ d ∧ from_filename f = Raise e.
Proof.
  intros (f & Hf & E)%get_units_loop_raise. exists f.
  by rewrite elem_of_elements in Hf.
Qed.

Lemma get_units_ok X d us :
  get_units X d = Ok us →
  (∀ f, f ∈ d → ∃ r, from_filename f = Ok r) ∧
  (∀ u, u ∈ us ↔ ∃ f, f ∈ d ∧ from_filename f = Ok (mk u X)).
Proof.
  intros [Hall Hus]%get_units_loop_ok. split.
  - intros f Hf. apply Hall. by rewrite elem_of_elements.
  - intros u. rewrite Hus. split.
    + intros [?%not_elem_of_empty|(f & Hf & E)]; [done|].
      exists f. by rewrite elem_of_elements in Hf.
    + intros (f & Hf & E). right. exists f. by rewrite elem_of_elements.
Qed.

Lemma get_units_total X d :
  (∀ f, f ∈ d → ∃ r, from_filename f = Ok r) → ∃ us, get_units X d = Ok us.
Proof.
  intros Hall. destruct (get_units X d) as [us|e] eqn:E; [by eauto|].
  apply get_units_raise in E as (f & Hf & E).
  destruct (Hall f Hf) as [r Hr]. congruence.
Qed.

Lemma any_other_true (self : string) (us : gset string) :
  existsb (λ unit, bool_decide (unit ≠ self)) (elements us) = true ↔
  ∃ u, u ∈ us ∧ u ≠ self.
Proof.
  rewrite existsb_exists. split.
  - intros (u & Hu%list_elem_of_In%elem_of_elements & Hne%bool_decide_eq_true). by eauto.
  - intros (u & Hu & Hne). exists u. split.
    + by apply list_elem_of_In, elem_of_elements.
    + by apply bool_decide_eq_true.
Qed.

Lemma is_used_true m X d us :
  get_units X d = Ok us → (∃ u, u ∈ us ∧ u ≠ SingletonSnapManager.unit_name m) →
  is_used_by_other_units m X d = Ok true.
Proof.
  intros E H. unfold is_used_by_other_units. rewrite E. f_equal.
  by apply any_other_true.
Qed.

Lemma is_used_false m X d us :
  get_units X d = Ok us → (∀ u, u ∈ us → u = SingletonSnapManager.unit_name m) →
  is_used_by_other_units m X d = Ok false.
Proof.
  intros E H. unfold is_used_by_other_units. rewrite E. f_equal.
  apply not_true_is_false. intros (u & Hu & Hne)%any_other_true.
  by apply Hne, H.
Qed.

Lemma filename_normalized u X :
  filename (mk (_normalize_name u) X) = filename (mk u X).
Proof. unfold filename. simpl. by rewrite normalize_idempotent. Qed.

End GetUnits.

(** ** The registry: claims C1, C5, C7 and C10 *)

Section RegistryClaims.

Import SnapRegistrationFile.
Local Abbreviation manager := SingletonSnapManager.mk.
Local Abbreviation register := SingletonSnapManager.register.
Local Abbreviation unregister := SingletonSnapManager.unregister.
Local Abbreviation get_units := SingletonSnapManager.get_units.
Local Abbreviation is_used_by_other_units := SingletonSnapManager.is_used_by_other_units.

(** C7.  [unregister] for a unit and a snap whose registration file is not in
    the lock directory raises [FileNotFoundError] for that file, and the
    directory is left as it was. *)
Theorem unregister_without_registration (p X : string) (d : gset string) :
  filename (mk p X) ∉ d →
  unregister (manager p) X d = (Raise (FileNotFoundError (filename (mk p X))), d).
Proof.
  intros Hnot. unfold SingletonSnapManager.unregister. simpl.
  by rewrite decide_False.
Qed.

Lemma unregister_without_registration_witness :
  (filename (mk "unit-0" "generic-exporter") ∉ (∅ : gset string)) ∧
  (unregister (manager "unit-0") "generic-exporter" ∅
   = (Raise (FileNotFoundError "LCK..generic-exporter__unit-0"), ∅)).
Proof.
  split; [apply not_elem_of_empty|].
  apply (unregister_without_registration "unit-0" "generic-exporter" ∅).
  apply not_elem_of_empty.
Defined.

(** C10, as stated, fails: a file with text in front of the prefix is not of
    the form prefix, snap, separator, unit, and yet it is parsed, and its
    unit counted, instead of raising. *)
Lemma get_units_accepts_text_before_prefix :
  ¬ (∀ (X : string) (d : gset string) (f : string),
       f ∈ d → ¬ Registry.prefixed_form f → ∃ e, get_units X d = Raise e).
Proof.
  intros H.
  destruct (H "a" {[ "xLCK..a__b" ]} "xLCK..a__b") as [e He].
  - by apply elem_of_singleton.
  - intros (snap & unit & E & _). unfold PREFIX in E.
    rewrite append_cons in E. discriminate E.
  - apply get_units_raise in He as (f & ->%elem_of_singleton & Ef).
    vm_compute in Ef. discriminate Ef.
Qed.

(** C10, amended.  [get_units], and with it [is_used_by_other_units], raises
    a [ValueError] exactly when the directory holds a name that [str.split]
    does not cut into two pieces around the prefix, or whose second piece it
    does not cut into two pieces around the separator; such a file is never
    skipped. *)
Theorem get_units_raises_iff (X : string) (d : gset string) :
  ((∃ msg, get_units X d = Raise (ValueError msg)) ↔
   ∃ f, f ∈ d ∧ ¬ Registry.well_split f) ∧
  (∀ m, (∃ msg, is_used_by_other_units m X d = Raise (ValueError msg)) ↔
        ∃ f, f ∈ d ∧ ¬ Registry.well_split f).
Proof.
  assert ((∃ msg, get_units X d = Raise (ValueError msg)) ↔
          ∃ f, f ∈ d ∧ ¬ Registry.well_split f) as Hget.
  { split.
    - intros (msg & (f & Hf & E)%get_units_raise). exists f. split; [done|].
      intros (r & Hr)%well_split_parses. congruence.
    - intros (f & Hf & Hbad).
      destruct (get_units X d) as [us|e] eqn:E.
      + apply get_units_ok in E as [Hall _]. destruct Hbad.
        apply well_split_parses. by apply Hall.
      + apply get_units_raise in E as (f' & _ & (msg & ->)%from_filename_raise).
        by eauto. }
  split; [exact Hget|]. intros m. rewrite <- Hget.
  unfold SingletonSnapManager.is_used_by_other_units.
  destruct (get_units X d) as [us|e]; split; intros (msg & E);
    simplify_eq; by eauto.
Qed.

(** C5, as stated, fails: the unit ["app/0"] registers, and the units listed
    for the snap hold ["app_0"], not ["app/0"]. *)
Lemma get_units_lists_the_normalized_name :
  ¬ (∀ (p X : string) (d : gset string) us,
       get_units X (register (manager p) X d).2 = Ok us → p ∈ us).
Proof.
  intros H.
  pose proof (H "app/0" "snap" ∅ {[ "app_0" ]} eq_refl) as Hin.
  apply elem_of_singleton in Hin. discriminate Hin.
Qed.

(** C5, amended.  In a directory of registration records, and for a unit and
    a snap whose file name parses back: after [register] the units listed for
    the snap contain the normalized name of the unit (the unit's own name when
    normalizing leaves it unchanged), and after the matching [unregister],
    which succeeds, they no longer contain it. *)
Theorem register_then_unregister (p X : string) (d : gset string) :
  Registry.records_only d →
  Registry.encodable p X →
  let d1 := (register (manager p) X d).2 in
  (∃ us, get_units X d1 = Ok us ∧ _normalize_name p ∈ us ∧
         (_normalize_name p = p → p ∈ us)) ∧
  ∃ d2, unregister (manager p) X d1 = (Ok tt, d2) ∧
        ∃ us', get_units X d2 = Ok us' ∧ _normalize_name p ∉ us'.
Proof.
  intros Hd Hp d1. subst d1. simpl.
  set (f := filename (mk p X)). split.
  - destruct (get_units_total X ({[ f ]} ∪ d)) as [us E].
    { intros f' [->%elem_of_singleton|Hf']%elem_of_union; [by eauto|].
      destruct (Hd f' Hf') as (r & Hr & _). by eauto. }
    exists us. split; [done|].
    assert (_normalize_name p ∈ us) as Hin.
    { apply get_units_ok in E as [_ Hus]. apply Hus. exists f.
      split; [by apply elem_of_union_l, elem_of_singleton|exact Hp]. }
    split; [done|]. by intros <-.
  - exists (({[ f ]} ∪ d) ∖ {[ f ]}). split.
    + unfold SingletonSnapManager.unregister. simpl. fold f.
      rewrite decide_True; [done|]. by apply elem_of_union_l, elem_of_singleton.
    + destruct (get_units_total X (({[ f ]} ∪ d) ∖ {[ f ]})) as [us' E].
      { intros f' [[?%elem_of_singleton|Hf']%elem_of_union Hne%not_elem_of_singleton]%elem_of_difference;
          [done|].
        destruct (Hd f' Hf') as (r & Hr & _). by eauto. }
      exists us'. split; [done|].
      apply get_units_ok in E as [_ Hus]. rewrite Hus.
      intros (f' & [Hf' Hne%not_elem_of_singleton]%elem_of_difference & E').
      apply Hne. apply elem_of_union in Hf' as [?%elem_of_singleton|Hf']; [done|].
      destruct (Hd f' Hf') as (r & Hr & <-). rewrite Hr in E'. injection E' as ->.
      unfold f. by rewrite filename_normalized.
Qed.

Lemma register_then_unregister_witness :
  Registry.records_only {[ "LCK..snap__unit-1" ]} ∧
  Registry.encodable "app/0" "snap" ∧
  ∃ d2, unregister (manager "app/0") "snap"
          (register (manager "app/0") "snap" {[ "LCK..snap__unit-1" ]}).2 = (Ok tt, d2) ∧
        ∃ us', get_units "snap" d2 = Ok us' ∧ "app_0" ∉ us'.
Proof.
  assert (Registry.records_only {[ "LCK..snap__unit-1" ]}) as Hd.
  { intros f ->%elem_of_singleton. exists (mk "unit-1" "snap").
    split; reflexivity. }
  assert (Registry.encodable "app/0" "snap") as Hp by reflexivity.
  split; [exact Hd|]. split; [exact Hp|].
  exact (proj2 (register_then_unregister "app/0" "snap" _ Hd Hp)).
Defined.

(** C1, as stated, fails at both ends.  The unit ["app/0"], alone registered
    for the snap, is told that other units use it: the listing holds the
    normalized name ["app_0"], which is compared with ["app/0"].  And the
    unit ["app_0"] is told that no other unit uses the snap after the
    distinct unit ["app/0"] registered: both write the same file. *)
Lemma is_used_by_other_units_punctuation :
  is_used_by_other_units (manager "app/0") "snap"
    (register (manager "app/0") "snap" ∅).2 = Ok true ∧
  is_used_by_other_units (manager "app_0") "snap"
    (register (manager "app/0") "snap"
       (register (manager "app_0") "snap" ∅).2).2 = Ok false.
Proof. split; reflexivity. Qed.

(** C1, amended.  Let no unit be registered for the snap, let normalizing
    leave the name of [p1] unchanged, let [p2] have another normalized name,
    and let both file names parse back.  Then [is_used_by_other_units] for
    [p1] is false once [p1] registered, true once [p2] registered too, and
    false again after [p2] unregistered.  For [p1] it is, in every
    directory, true exactly when the units listed for the snap contain a
    name other than [p1]. *)
Theorem is_used_by_other_units_scenario (p1 p2 X : string) (d : gset string) :
  get_units X d = Ok ∅ →
  _normalize_name p1 = p1 →
  _normalize_name p2 ≠ p1 →
  Registry.encodable p1 X →
  Registry.encodable p2 X →
  let d1 := (register (manager p1) X d).2 in
  let d2 := (register (manager p2) X d1).2 in
  is_used_by_other_units (manager p1) X d1 = Ok false ∧
  is_used_by_other_units (manager p1) X d2 = Ok true ∧
  (∃ d3, unregister (manager p2) X d2 = (Ok tt, d3) ∧
         is_used_by_other_units (manager p1) X d3 = Ok false) ∧
  (∀ Y d' us, get_units Y d' = Ok us →
     ∃ b, is_used_by_other_units (manager p1) Y d' = Ok b ∧
          (b = true ↔ ∃ u, u ∈ us ∧ u ≠ p1)).
Proof.
  intros Hd Hn1 Hn2 Hp1 Hp2 d1 d2. subst d1 d2. simpl.
  set (f1 := filename (mk p1 X)). set (f2 := filename (mk p2 X)).
  unfold Registry.encodable in Hp1, Hp2. fold f1 in Hp1. fold f2 in Hp2.
  apply get_units_ok in Hd as [Hall Hnone].
  assert (∀ f u, f ∈ d → from_filename f = Ok (mk u X) → False) as Hfree.
  { intros f u Hf E. apply (not_elem_of_empty (C:=gset string) u).
    apply Hnone. by eauto. }
  assert (∀ f, f ∈ ({[ f1 ]} ∪ d : gset string) → ∃ r, from_filename f = Ok r) as Hall1.
  { intros f [->%elem_of_singleton|Hf]%elem_of_union; by eauto. }
  assert (∀ f, f ∈ ({[ f2 ]} ∪ ({[ f1 ]} ∪ d) : gset string) →
               ∃ r, from_filename f = Ok r) as Hall2.
  { intros f [->%elem_of_singleton|Hf]%elem_of_union; by eauto. }
  assert (f2 ≠ f1) as Hne.
  { intros E. rewrite E, Hp1 in Hp2. injection Hp2 as E'. congruence. }
  split; [|split; [|split]].
  - destruct (get_units_total X _ Hall1) as [us E].
    apply (is_used_false _ _ _ us E). intros u Hu. simpl.
    apply get_units_ok in E as [_ Hus]. apply Hus in Hu as (f & Hf & Ef).
    apply elem_of_union in Hf as [->%elem_of_singleton|Hf].
    + rewrite Hp1 in Ef. injection Ef as <-. done.
    + destruct (Hfree f u Hf Ef).
  - destruct (get_units_total X _ Hall2) as [us E].
    apply (is_used_true _ _ _ us E). exists (_normalize_name p2). split; [|done].
    apply get_units_ok in E as [_ Hus]. apply Hus. exists f2.
    split; [by apply elem_of_union_l, elem_of_singleton|exact Hp2].
  - exists (({[ f2 ]} ∪ ({[ f1 ]} ∪ d)) ∖ {[ f2 ]}). split.
    + unfold SingletonSnapManager.unregister. simpl. fold f2.
      rewrite decide_True; [done|]. by apply elem_of_union_l, elem_of_singleton.
    + destruct (get_units_total X (({[ f2 ]} ∪ ({[ f1 ]} ∪ d)) ∖ {[ f2 ]})) as [us E].
      { intros f [Hf _]%elem_of_difference. by apply Hall2. }
      apply (is_used_false _ _ _ us E). intros u Hu. simpl.
      apply get_units_ok in E as [_ Hus]. apply Hus in Hu as (f & Hf & Ef).
      apply elem_of_difference in Hf as [Hf Hnf%not_elem_of_singleton].
      apply elem_of_union in Hf as [?%elem_of_singleton|Hf]; [done|].
      apply elem_of_union in Hf as [->%elem_of_singleton|Hf].
      * rewrite Hp1 in Ef. injection Ef as <-. done.
      * destruct (Hfree f u Hf Ef).
  - intros Y d' us E. unfold SingletonSnapManager.is_used_by_other_units.
    rewrite E. eexists. split; [reflexivity|]. apply any_other_true.
Qed.

Lemma is_used_by_other_units_scenario_witness :
  get_units "generic-exporter" ∅ = Ok ∅ ∧
  _normalize_name "unit-0" = "unit-0" ∧
  _normalize_name "app/1" ≠ "unit-0" ∧
  Registry.encodable "unit-0" "generic-exporter" ∧
  Registry.encodable "app/1" "generic-exporter" ∧
  is_used_by_other_units (manager "unit-0") "generic-exporter"
    (register (manager "app/1") "generic-exporter"
       (register (manager "unit-0") "generic-exporter" ∅).2).2 = Ok true.
Proof.
  assert (_normalize_name "app/1" ≠ "unit-0") as Hne by discriminate.
  split; [reflexivity|]. split; [reflexivity|]. split; [exact Hne|].
  split; [reflexivity|]. split; [reflexivity|].
  exact (proj1 (proj2 (is_used_by_other_units_scenario "unit-0" "app/1"
    "generic-exporter" ∅ eq_refl eq_refl Hne eq_refl eq_refl))).
Defined.

End RegistryClaims.

(** ** Flattening and merging nested configs: claims C3 and C9 *)

Section MergeClaims.

Import Utils Merge.

(** Induction on a map and, through its items, on the maps nested in it. *)
Lemma dict_nested_ind (P : dict → Prop) :
  P [] →
  (∀ k v rest, is_dict v = false → P rest → P ((k, v) :: rest)) →
  (∀ k sub rest, P sub → P rest → P ((k, VDict sub) :: rest)) →
  ∀ d, P d.
Proof.
  intros Hnil Hleaf Hdict.
  assert (∀ v, match v with VDict d => P d | _ => True end) as Hv.
  { fix IH 1. intros [ | | | | |d]; try exact I.
    induction d as [|[k v] rest IHrest]; [exact Hnil|].
    pose proof (IH v) as Hsub.
    destruct v; try (apply Hleaf; [reflexivity|exact IHrest]).
    apply Hdict; [exact Hsub|exact IHrest]. }
  intros d. exact (Hv (VDict d)).
Qed.

Lemma flatten_items_dict k sub rest p :
  flatten_items ((k, VDict sub) :: rest) p
  = dict_of_items (flatten_items sub (dotted p k)) ++ flatten_items rest p.
Proof. reflexivity. Qed.

Lemma flatten_items_leaf k v rest p :
  is_dict v = false →
  flatten_items ((k, v) :: rest) p = (dotted p k, v) :: flatten_items rest p.
Proof. by destruct v. Qed.

Lemma merge_dicts_nil r path : merge_dicts r [] path = Ok r.
Proof. reflexivity. Qed.

Lemma merge_dicts_cons r key value rest path :
  merge_dicts r ((key, value) :: rest) path =
  match dict_get key r with
  | None => merge_dicts (dict_set key value r) rest path
  | Some cur =>
      match cur, value with
      | VDict cur_items, VDict value_items =>
          match merge_dicts cur_items value_items (dotted path key) with
          | Raise e => Raise e
          | Ok merged => merge_dicts (dict_set key (VDict merged) r) rest path
          end
      | _, _ => Raise (ValueError ("The configs conflict at key: " +:+ dotted path key))
      end
  end.
Proof.
  unfold merge_dicts. simpl. destruct (dict_get key r) as [cur|]; [|done].
  destruct cur, value; reflexivity.
Qed.

Lemma dict_get_set_eq key v d : dict_get key (dict_set key v d) = Some v.
Proof.
  induction d as [|[k w] d IH]; simpl.
  - by rewrite decide_True.
  - destruct (decide (k = key)) as [->|Hne]; simpl.
    + by rewrite decide_True.
    + by rewrite decide_False.
Qed.

Lemma dict_get_set_ne key k v d :
  k ≠ key → dict_get k (dict_set key v d) = dict_get k d.
Proof.
  intros Hne. induction d as [|[k' w] d IH]; simpl.
  - by rewrite decide_False.
  - destruct (decide (k' = key)) as [->|Hne']; simpl.
    + by rewrite !decide_False.
    + destruct (decide (k' = k)); [done|exact IH].
Qed.

Lemma keys_cons k v (d : dict) : keys ((k, v) :: d) = {[ k ]} ∪ keys d.
Proof. reflexivity. Qed.

Lemma keys_app (d1 d2 : dict) : keys (d1 ++ d2) = keys d1 ∪ keys d2.
Proof. unfold keys. rewrite fmap_app. apply list_to_set_app_L. Qed.

Lemma keys_dict_set key v d : keys (dict_set key v d) = {[ key ]} ∪ keys d.
Proof.
  induction d as [|[k w] d IH]; simpl.
  - rewrite keys_cons. set_solver.
  - destruct (decide (k = key)) as [->|Hne]; rewrite !keys_cons; [set_solver|].
    rewrite IH. set_solver.
Qed.

Lemma keys_fold_set (items acc : dict) :
  keys (fold_left (λ d kv, dict_set kv.1 kv.2 d) items acc) = keys items ∪ keys acc.
Proof.
  revert acc. induction items as [|[k v] items IH]; intros acc; simpl.
  - set_solver.
  - rewrite IH, keys_dict_set, keys_cons. set_solver.
Qed.

Lemma keys_dict_of_items items : keys (dict_of_items items) = keys items.
Proof. unfold dict_of_items. rewrite keys_fold_set. set_solver. Qed.

(** The keys of a flattened map, item by item. *)
Lemma flat_keys_nil p : keys (flatten_dict [] p) = ∅.
Proof. reflexivity. Qed.

Lemma flat_keys_cons k v rest p :
  keys (flatten_dict ((k, v) :: rest) p)
  = item_keys k v p ∪ keys (flatten_dict rest p).
Proof.
  unfold flatten_dict. rewrite !keys_dict_of_items.
  destruct (is_dict v) eqn:E.
  - destruct v; try discriminate E.
    rewrite flatten_items_dict, keys_app. simpl.
    unfold flatten_dict. by rewrite !keys_dict_of_items.
  - rewrite flatten_items_leaf, keys_cons by done. by destruct v.
Qed.

Lemma flat_keys_get key cur d p :
  dict_get key d = Some cur → item_keys key cur p ⊆ keys (flatten_dict d p).
Proof.
  induction d as [|[k w] d IH]; simpl; [done|].
  rewrite flat_keys_cons. destruct (decide (k = key)) as [->|Hne].
  - intros [= ->]. set_solver.
  - intros H. specialize (IH H). set_solver.
Qed.

Lemma flat_keys_set_new key v d p :
  dict_get key d = None →
  keys (flatten_dict (dict_set key v d) p)
  = keys (flatten_dict d p) ∪ item_keys key v p.
Proof.
  induction d as [|[k w] d IH]; simpl.
  - intros _. rewrite flat_keys_cons, flat_keys_nil. set_solver.
  - destruct (decide (k = key)) as [->|Hne]; [done|].
    intros H. rewrite !flat_keys_cons, IH by done. set_solver.
Qed.

Lemma flat_keys_set_grow key cur v d p :
  dict_get key d = Some cur →
  item_keys key cur p ⊆ item_keys key v p →
  keys (flatten_dict (dict_set key v d) p)
  = keys (flatten_dict d p) ∪ item_keys key v p.
Proof.
  induction d as [|[k w] d IH]; simpl; [done|].
  destruct (decide (k = key)) as [->|Hne].
  - intros [= ->] Hsub. rewrite !flat_keys_cons. set_solver.
  - intros H Hsub. rewrite !flat_keys_cons, IH by done. set_solver.
Qed.

Lemma merge_flat_keys (items : dict) :
  ∀ (r : dict) path merged p,
    merge_dicts r items path = Ok merged →
    keys (flatten_dict merged p)
    = keys (flatten_dict r p) ∪ keys (flatten_dict items p).
Proof.
  induction items as [|k v rest Hv IHrest|k sub rest IHsub IHrest]
    using dict_nested_ind; intros r path merged p.
  - rewrite merge_dicts_nil. intros [= <-]. rewrite flat_keys_nil. set_solver.
  - rewrite merge_dicts_cons. destruct (dict_get k r) as [cur|] eqn:Hget.
    + destruct cur, v; done.
    + intros Hm. rewrite (IHrest _ _ _ p Hm), flat_keys_set_new, flat_keys_cons by done.
      set_solver.
  - rewrite merge_dicts_cons. destruct (dict_get k r) as [cur|] eqn:Hget.
    + destruct cur as [ | | | | |cur_items]; try done.
      destruct (merge_dicts cur_items sub (dotted path k)) as [m|] eqn:Hsub; [|done].
      intros Hm. rewrite (IHrest _ _ _ p Hm).
      pose proof (IHsub _ _ _ (dotted p k) Hsub) as Hk.
      pose proof (flat_keys_get k _ r p Hget) as Hin. simpl in Hin.
      rewrite (flat_keys_set_grow k (VDict cur_items)), flat_keys_cons; simpl;
        [|done|rewrite Hk; set_solver].
      rewrite Hk. set_solver.
    + intros Hm. rewrite (IHrest _ _ _ p Hm), flat_keys_set_new, flat_keys_cons by done.
      set_solver.
Qed.

(** C9.  Whenever [merge_dicts] succeeds, the keys of the flattened merge are
    the keys of the one flattened map together with those of the other. *)
Theorem flatten_merge_keys (A B merged : dict) :
  merge_dicts A B "" = Ok merged →
  keys (flatten_dict merged "")
  = keys (flatten_dict A "") ∪ keys (flatten_dict B "").
Proof. apply merge_flat_keys. Qed.

Lemma flatten_merge_keys_witness :
  merge_dicts [("a", VDict [("x", VInt 1)]); ("c", VStr "v")]
              [("a", VDict [("y", VInt 2)]); ("b", VInt 3)] ""
  = Ok [("a", VDict [("x", VInt 1); ("y", VInt 2)]); ("c", VStr "v"); ("b", VInt 3)] ∧
  keys (flatten_dict
          [("a", VDict [("x", VInt 1); ("y", VInt 2)]); ("c", VStr "v"); ("b", VInt 3)] "")
  = keys (flatten_dict [("a", VDict [("x", VInt 1)]); ("c", VStr "v")] "")
    ∪ keys (flatten_dict [("a", VDict [("y", VInt 2)]); ("b", VInt 3)] "").
Proof.
  split; [reflexivity|].
  apply (flatten_merge_keys
           [("a", VDict [("x", VInt 1)]); ("c", VStr "v")]
           [("a", VDict [("y", VInt 2)]); ("b", VInt 3)]).
  reflexivity.
Defined.

Lemma unique_keys_cons k v rest :
  unique_keys ((k, v) :: rest) = true →
  dict_get k rest = None ∧ unique_keys_value v = true ∧ unique_keys rest = true.
Proof.
  unfold unique_keys. simpl.
  intros [[?%bool_decide_eq_true ?]%andb_true_iff ?]%andb_true_iff. done.
Qed.

Lemma collide_head d1 d2 ks :
  collide d1 d2 ks →
  ∃ k ks' v2, ks = k :: ks' ∧ dict_get k d2 = Some v2.
Proof. destruct 1; by eauto. Qed.

Lemma collide_change d1 d1' d2 d2' k ks :
  collide d1 d2 (k :: ks) →
  dict_get k d1' = dict_get k d1 → dict_get k d2' = dict_get k d2 →
  collide d1' d2' (k :: ks).
Proof.
  intros H E1 E2. inversion H; subst.
  - eapply collide_here; [by rewrite E1|by rewrite E2|done].
  - eapply collide_below; [by rewrite E1|by rewrite E2|done].
Qed.

Lemma collide_step_in key v w (r rest : dict) ks :
  dict_get key rest = None →
  collide (dict_set key w r) rest ks → collide r ((key, v) :: rest) ks.
Proof.
  intros Hnone H. destruct (collide_head _ _ _ H) as (k & ks' & v2 & -> & Hk).
  assert (k ≠ key) as Hne by (intros ->; congruence).
  eapply collide_change; [exact H|..].
  - symmetry. by apply dict_get_set_ne.
  - simpl. by rewrite decide_False.
Qed.

Lemma collide_step_out key v w (r rest : dict) k ks :
  k ≠ key →
  collide r ((key, v) :: rest) (k :: ks) → collide (dict_set key w r) rest (k :: ks).
Proof.
  intros Hne H. eapply collide_change; [exact H|..].
  - by apply dict_get_set_ne.
  - simpl. by rewrite decide_False.
Qed.

Lemma merge_raise_collide (items : dict) :
  unique_keys items = true →
  ∀ (r : dict) path e,
    merge_dicts r items path = Raise e →
    ∃ ks, collide r items ks ∧
          e = ValueError ("The configs conflict at key: " +:+ dotted_path path ks).
Proof.
  induction items as [|k v rest Hv IHrest|k sub rest IHsub IHrest]
    using dict_nested_ind; intros Huniq r path e.
  - by rewrite merge_dicts_nil.
  - apply unique_keys_cons in Huniq as (Hnone & _ & Hrest).
    rewrite merge_dicts_cons. destruct (dict_get k r) as [cur|] eqn:Hget.
    + intros He. exists [k]. split.
      * eapply collide_here; [exact Hget|simpl; by rewrite decide_True|].
        rewrite Hv. apply andb_false_r.
      * destruct cur, v; by simplify_eq.
    + intros (ks & Hc & ->)%(IHrest Hrest). exists ks. split; [|done].
      by eapply collide_step_in.
  - apply unique_keys_cons in Huniq as (Hnone & Hsub & Hrest).
    rewrite merge_dicts_cons. destruct (dict_get k r) as [cur|] eqn:Hget.
    + destruct (is_dict cur) eqn:Hcur.
      * destruct cur as [ | | | | |cur_items]; try discriminate Hcur.
        destruct (merge_dicts cur_items sub (dotted path k)) as [m|e'] eqn:Hm.
        -- intros (ks & Hc & ->)%(IHrest Hrest). exists ks. split; [|done].
           by eapply collide_step_in.
        -- intros [= <-]. apply (IHsub Hsub) in Hm as (ks & Hc & ->).
           exists (k :: ks). split; [|done].
           eapply collide_below; [exact Hget|simpl; by rewrite decide_True|done].
      * intros He. exists [k]. split.
        -- eapply collide_here; [exact Hget|simpl; by rewrite decide_True|].
           by rewrite Hcur.
        -- destruct cur; by simplify_eq.
    + intros (ks & Hc & ->)%(IHrest Hrest). exists ks. split; [|done].
      by eapply collide_step_in.
Qed.

Lemma collide_merge_raise (items : dict) :
  unique_keys items = true →
  ∀ (r : dict) path ks,
    collide r items ks → ∃ e, merge_dicts r items path = Raise e.
Proof.
  induction items as [|k v rest Hv IHrest|k sub rest IHsub IHrest]
    using dict_nested_ind; intros Huniq r path ks Hc.
  - destruct (collide_head _ _ _ Hc) as (k & ks' & v2 & _ & Hk). done.
  - apply unique_keys_cons in Huniq as (Hnone & _ & Hrest).
    rewrite merge_dicts_cons. destruct (dict_get k r) as [cur|] eqn:Hget.
    + destruct cur, v; by eauto.
    + destruct (collide_head _ _ _ Hc) as (k0 & ks' & v2 & -> & Hk0).
      apply (IHrest Hrest _ path (k0 :: ks')). eapply collide_step_out; [|exact Hc].
      intros ->. inversion Hc; congruence.
  - apply unique_keys_cons in Huniq as (Hnone & Hsub & Hrest).
    rewrite merge_dicts_cons. destruct (dict_get k r) as [cur|] eqn:Hget.
    + destruct cur as [ | | | | |cur_items]; try by eauto.
      destruct (merge_dicts cur_items sub (dotted path k)) as [m|e'] eqn:Hm;
        [|by eauto].
      destruct (collide_head _ _ _ Hc) as (k0 & ks' & v2 & -> & Hk0).
      destruct (decide (k0 = k)) as [->|Hne].
      * exfalso. inversion Hc as [? ? ? v1 v2' H1 H2 Hd|? ? ? s1 s2 ? H1 H2 Hs]; subst.
        -- simpl in H2. rewrite decide_True in H2 by done.
           rewrite Hget in H1. by simplify_eq.
        -- simpl in H2. rewrite decide_True in H2 by done.
           rewrite Hget in H1. simplify_eq.
           destruct (IHsub Hsub _ (dotted path k) _ Hs) as [e He]. congruence.
      * apply (IHrest Hrest _ path (k0 :: ks')). by eapply collide_step_out.
    + destruct (collide_head _ _ _ Hc) as (k0 & ks' & v2 & -> & Hk0).
      apply (IHrest Hrest _ path (k0 :: ks')). eapply collide_step_out; [|exact Hc].
      intros ->. inversion Hc; congruence.
Qed.

(** The maps of the documented examples. *)
Example merge_flatten_examples :
  merge_dicts [("a", VInt 1)] [("b", VInt 2)] "" = Ok [("a", VInt 1); ("b", VInt 2)] ∧
  merge_dicts [("a", VDict [("x", VInt 1)])] [("a", VDict [("y", VInt 2)])] ""
  = Ok [("a", VDict [("x", VInt 1); ("y", VInt 2)])] ∧
  merge_dicts [("a", VInt 1)] [("a", VInt 2)] ""
  = Raise (ValueError "The configs conflict at key: a") ∧
  flatten_dict [("web", VDict [("port", VInt 1922)])] "" = [("web.port", VInt 1922)].
Proof. repeat split. Qed.

(** C3, as stated, fails: a key with the same leaf value on both sides makes
    the merge fail, naming the key. *)
Lemma merge_dicts_equal_leaves_conflict :
  merge_dicts [("a", VInt 1)] [("a", VInt 1)] ""
  = Raise (ValueError "The configs conflict at key: a").
Proof. reflexivity. Qed.

(** C3, amended.  [merge_dicts] fails exactly when some key, reached through
    keys that are maps on both sides, is in both inputs and is not a map on
    both sides, whether or not the two values are equal; the [ValueError]
    names the dotted path of such a key. *)
Theorem merge_dicts_conflict (d1 d2 : dict) :
  unique_keys d2 = true →
  ((∃ e, merge_dicts d1 d2 "" = Raise e) ↔ ∃ ks, collide d1 d2 ks) ∧
  (∀ e, merge_dicts d1 d2 "" = Raise e →
        ∃ ks, collide d1 d2 ks ∧
              e = ValueError ("The configs conflict at key: " +:+ dotted_path "" ks)).
Proof.
  intros Huniq. split; [split|].
  - intros (e & (ks & Hc & _)%merge_raise_collide); by eauto.
  - intros (ks & Hc). by eapply collide_merge_raise.
  - intros e He. by eapply merge_raise_collide.
Qed.

Lemma merge_dicts_conflict_witness :
  unique_keys [("a", VDict [("x", VInt 1)]); ("b", VInt 2)] = true ∧
  ∃ ks, collide [("a", VDict [("x", VInt 1)])]
                [("a", VDict [("x", VInt 1)]); ("b", VInt 2)] ks ∧
        ValueError "The configs conflict at key: a.x"
        = ValueError ("The configs conflict at key: " +:+ dotted_path "" ks).
Proof.
  split; [reflexivity|].
  apply (proj2 (merge_dicts_conflict
                  [("a", VDict [("x", VInt 1)])]
                  [("a", VDict [("x", VInt 1)]); ("b", VInt 2)] eq_refl)).
  reflexivity.
Defined.

End MergeClaims.

(** ** Retried probes: claim C8 *)

Section RetryClaims.

Import Utils.

Context {A : Type}.

(** What the retry loop does, whatever the policy: it stops at the first
    attempt that asks for no retry, or at the last attempt allowed. *)
Lemma retry_from_spec (pol : retry_policy A) (fn : nat → result A)
    (remaining a : nat) (s : Z) :
  let r := retry_from pol fn remaining a s in
  (a ≤ attempts r ≤ a + remaining)%nat ∧
  slept r = s + wait_fixed pol * (Z.of_nat (attempts r) - Z.of_nat a) ∧
  (∀ n, (a ≤ n < attempts r)%nat → retry pol (fn n) = true) ∧
  ((retry pol (fn (attempts r)) = false ∧ outcome r = fn (attempts r)) ∨
   (attempts r = (a + remaining)%nat ∧ retry pol (fn (attempts r)) = true ∧
    outcome r = exhausted pol (fn (attempts r)))).
Proof.
  revert a s. induction remaining as [|remaining IH]; intros a s; simpl.
  - destruct (retry pol (fn a)) eqn:E; simpl.
    + split; [lia|]. split; [lia|]. split; [intros n; lia|].
      right. rewrite Nat.add_0_r. by rewrite E.
    + split; [lia|]. split; [lia|]. split; [intros n; lia|]. left. by rewrite E.
  - destruct (retry pol (fn a)) eqn:E; simpl.
    + destruct (IH (S a) (s + wait_fixed pol)) as (Hb & Hs & Hbefore & Hlast).
      split; [lia|]. split; [rewrite Hs; lia|]. split.
      * intros n Hn. destruct (decide (n = a)) as [->|]; [done|].
        apply Hbefore. lia.
      * destruct Hlast as [?|(-> & ? & ?)]; [by left|right].
        split; [lia|]. by replace (a + S remaining)%nat with (S a + remaining)%nat by lia.
    + split; [lia|]. split; [lia|]. split; [intros n; lia|]. left. by rewrite E.
Qed.

End RetryClaims.



(** ** The handlers of the charm: claims C2, C4 and C6 *)

Section CharmClaims.

Import Config Charm Scenario.

Context (w : world).

Lemma bind_ok {A B} (m : M A) (k : A → M B) st a st' :
  m st = (Ok a, st') → bind m k st = k a st'.
Proof. unfold bind. by intros ->. Qed.

Lemma bind_raise {A B} (m : M A) (k : A → M B) st e st' :
  m st = (Raise e, st') → bind m k st = (Raise e, st').
Proof. unfold bind. by intros ->. Qed.

(** What [_remove] does when a snap is installed and its registration is in
    the lock directory. *)
Lemma _remove_installed st a d' used :
  installed_snap_name st = Some a →
  SingletonSnapManager.unregister (SingletonSnapManager.mk (unit_name w)) a (lock_dir st)
  = (Ok tt, d') →
  SingletonSnapManager.is_used_by_other_units (SingletonSnapManager.mk (unit_name w)) a d'
  = Ok used →
  let h := calls st ++ [Unregister a; IsUsedByOtherUnits a] in
  let r := _remove w st in
  lock_dir r.2 = d' ∧ conf r.2 = conf st ∧ unit_status r.2 = unit_status st ∧
  if used
  then r.1 = Ok tt ∧ installed_snap_name r.2 = None ∧ calls r.2 = h
  else calls r.2 = h ++ [SnapRemove a] ∧
       if snap_remove w h a
       then r.1 = Ok tt ∧ installed_snap_name r.2 = None
       else r.1 = Raise (CharmUninstallError
                           ("Failed to uninstall snap: " +:+ a +:+ ". " +:+ SEE_LOG)) ∧
            installed_snap_name r.2 = Some a.
Proof.
  intros Hst Hun Hused h r. subst h r.
  unfold _remove, bind, gets, manager_unregister, manager_is_used_by_other_units,
    ask, modify, ret, raise.
  rewrite Hst. simpl. rewrite Hun. simpl. rewrite Hused.
  destruct used; simpl.
  - by rewrite <- app_assoc.
  - rewrite <- !app_assoc. simpl.
    destruct (snap_remove w (calls st ++ [Unregister a; IsUsedByOtherUnits a]) a);
      simpl; by rewrite <- ?app_assoc.
Qed.

Lemma quiet_refl st : quiet st st.
Proof. split; [done|]. split; [done|]. exists []. by rewrite app_nil_r. Qed.

Lemma quiet_trans st1 st2 st3 : quiet st1 st2 → quiet st2 st3 → quiet st1 st3.
Proof.
  intros (Hi & Hd & delta & Hc & Hb) (Hi' & Hd' & delta' & Hc' & Hb').
  split; [congruence|]. split; [congruence|]. exists (delta ++ delta').
  split; [by rewrite Hc', Hc, app_assoc|by apply Forall_app].
Qed.

Lemma quiet_call c st : benign c → quiet st (with_call c st).
Proof.
  intros Hc. split; [done|]. split; [done|]. exists [c]. split; [done|].
  by apply Forall_singleton.
Qed.

Lemma preserves_ret {A} (a : A) : preserves (ret a).
Proof. intros st. apply quiet_refl. Qed.

Lemma preserves_raise {A} e : preserves (raise (A:=A) e).
Proof. intros st. apply quiet_refl. Qed.

Lemma preserves_gets {A} (f : state → A) : preserves (gets f).
Proof. intros st. apply quiet_refl. Qed.

Lemma preserves_bind {A B} (m : M A) (k : A → M B) :
  preserves m → (∀ a, preserves (k a)) → preserves (bind m k).
Proof.
  intros Hm Hk st. unfold bind. specialize (Hm st).
  destruct (m st) as [[a|e] st']; simpl in *; [|done].
  eapply quiet_trans; [exact Hm|apply Hk].
Qed.

Lemma preserves_ask {A} c (answer : list call → A) : benign c → preserves (ask c answer).
Proof. intros Hc st. by apply quiet_call. Qed.

Lemma preserves_call c : benign c → preserves (modify (with_call c)).
Proof. intros Hc st. by apply quiet_call. Qed.

Lemma preserves_status u : preserves (_log_and_set_status u).
Proof.
  intros st. split; [done|]. split; [done|]. exists []. simpl. by rewrite app_nil_r.
Qed.

Lemma preserves_client_check snap : preserves (client_check w snap).
Proof. intros st. by apply quiet_call. Qed.

Lemma preserves_check_metrics_endpoint url : preserves (check_metrics_endpoint w url).
Proof. intros st. by apply quiet_call. Qed.

Lemma preserves__set_workload_version : preserves (_set_workload_version w).
Proof.
  unfold _set_workload_version. apply preserves_bind; [apply preserves_gets|].
  intros c. destruct (snap_client c).
  - intros st. by apply quiet_call.
  - by apply preserves_call.
Qed.

Ltac preserves_step :=
  lazymatch goal with
  | |- preserves (bind _ _) => apply preserves_bind; [|intros ?]
  | |- preserves (ret _) => apply preserves_ret
  | |- preserves (raise _) => apply preserves_raise
  | |- preserves (gets _) => apply preserves_gets
  | |- preserves (ask _ _) => apply preserves_ask; exact I
  | |- preserves (modify (with_call _)) => apply preserves_call; exact I
  | |- preserves (_log_and_set_status _) => apply preserves_status
  | |- preserves (client_check _ _) => apply preserves_client_check
  | |- preserves (check_metrics_endpoint _ _) => apply preserves_check_metrics_endpoint
  | |- preserves (_set_workload_version _) => apply preserves__set_workload_version
  | |- preserves (match ?x with _ => _ end) => destruct x
  end.

Lemma preserves__check_status : preserves (_check_status w).
Proof. unfold _check_status. repeat preserves_step. Qed.

Lemma preserves__get_snap_config_diff : preserves (_get_snap_config_diff w).
Proof. unfold _get_snap_config_diff. repeat preserves_step. Qed.

Lemma preserves__configure : preserves (_configure w).
Proof.
  unfold _configure, _configure_alerts. cbv zeta.
  repeat (preserves_step || apply preserves__get_snap_config_diff).
Qed.

(** After the identity transition, [reconcile] makes benign calls only. *)
Lemma preserves_rest ev :
  preserves
    ((match ev with
      | ConfigChangedEvent =>
          _log_and_set_status (MaintenanceStatus "Updating configuration") >> _configure w
      | _ => ret tt
      end) >>
     _check_status w >> _log_and_set_status ActiveStatus).
Proof.
  apply preserves_bind; [|intros _; apply preserves_bind; [|intros _]].
  - destruct ev; try apply preserves_ret.
    apply preserves_bind; [apply preserves_status|intros _; apply preserves__configure].
  - apply preserves__check_status.
  - apply preserves_status.
Qed.

Lemma check_required_fields_spec c :
  check_required_fields c
  = match missing_names c with [] => None | l => Some l end.
Proof.
  unfold check_required_fields, missing_names.
  destruct (snap_name c) eqn:E1, (exporter_port c) eqn:E2;
    unfold REQUIRED_FIELDS, missing_loop, getattr_is_none; simpl;
    rewrite E1, E2; reflexivity.
Qed.

Lemma _check_status_missing st missing :
  check_required_fields (conf st) = Some missing →
  _check_status w st
  = (Raise (CharmStatusError
              ("Missing required configuration fields: " +:+ Py.join ", " missing)), st).
Proof.
  intros H. unfold _check_status, bind, gets. rewrite H.
  destruct missing as [|field fields]; [|reflexivity].
  rewrite check_required_fields_spec in H. by destruct (missing_names (conf st)).
Qed.

Lemma reconcile_body_split ev st :
  reconcile_body w ev st
  = (before_check w ev >> _check_status w >> _log_and_set_status ActiveStatus) st.
Proof.
  unfold reconcile_body, before_check, bind.
  destruct (_validate_config w st) as [[[]|e] st1]; [|done].
  destruct (gets installed_snap_name st1) as [[stored|e] st2]; [|done].
  destruct (gets conf st2) as [[c|e] st3]; [|done].
  destruct (decide (stored ≠ snap_name c)).
  - destruct (_log_and_set_status _ st3) as [[[]|e] st4]; [|done].
    destruct (_remove w st4) as [[[]|e] st5]; [|done].
    destruct (_install w st5) as [[[]|e] st6]; [|done].
    by destruct ev.
  - unfold ret. by destruct ev.
Qed.

(** C4, amended.  On tear-down of a unit whose snap is recorded as
    installed, [remove] first unregisters the snap.  If the registration file
    of the unit is missing, [FileNotFoundError] leaves the handler: the
    registry is not asked, no removal is issued and the installed name is
    kept.  Otherwise the file is deleted and the registry is asked whether
    other units use the snap.  If a file of the lock directory has no name of
    a registration, the [ValueError] of that name leaves the handler: no
    removal is issued and the installed name is kept.  If other units use the
    snap, no removal is issued and the installed name is cleared.  If none
    does, the removal is issued: when it succeeds the installed name is
    cleared, and when it fails [CharmUninstallError] leaves the handler and
    the installed name is kept. *)
Theorem remove_handler (st : state) (a : string) :
  let me := SingletonSnapManager.mk (unit_name w) in
  let mine := SnapRegistrationFile.filename (SnapRegistrationFile.mk (unit_name w) a) in
  let h := calls st ++ [RemoveRulesDir; Unregister a; IsUsedByOtherUnits a] in
  let r := remove w st in
  installed_snap_name st = Some a →
  if decide (mine ∈ lock_dir st)
  then
    lock_dir r.2 = lock_dir st ∖ {[ mine ]} ∧
    match SingletonSnapManager.is_used_by_other_units me a (lock_dir st ∖ {[ mine ]}) with
    | Raise e =>
        (∃ f msg, f ∈ lock_dir st ∧ f ≠ mine ∧
                  SnapRegistrationFile.from_filename f = Raise e ∧ e = ValueError msg) ∧
        r.1 = Raise e ∧ installed_snap_name r.2 = Some a ∧ calls r.2 = h
    | Ok true => r.1 = Ok tt ∧ installed_snap_name r.2 = None ∧ calls r.2 = h
    | Ok false =>
        calls r.2 = h ++ [SnapRemove a] ∧
        if snap_remove w h a
        then r.1 = Ok tt ∧ installed_snap_name r.2 = None
        else r.1 = Raise (CharmUninstallError
                            ("Failed to uninstall snap: " +:+ a +:+ ". " +:+ SEE_LOG)) ∧
             installed_snap_name r.2 = Some a
    end
  else
    r.1 = Raise (FileNotFoundError mine) ∧ installed_snap_name r.2 = Some a ∧
    lock_dir r.2 = lock_dir st ∧
    calls r.2 = calls st ++ [RemoveRulesDir; Unregister a].
Proof.
  intros me mine h r Hst. subst h r.
  set (st1 := with_call RemoveRulesDir
                (with_status (MaintenanceStatus "Removing charm resources") st)).
  assert (remove w st = _remove w st1) as -> by reflexivity.
  assert (calls st1 ++ [Unregister a; IsUsedByOtherUnits a]
          = calls st ++ [RemoveRulesDir; Unregister a; IsUsedByOtherUnits a]) as E.
  { simpl. by rewrite <- app_assoc. }
  destruct (decide (mine ∈ lock_dir st)) as [Hin|Hnin].
  - assert (SingletonSnapManager.unregister me a (lock_dir st1)
            = (Ok tt, lock_dir st ∖ {[ mine ]})) as Hun.
    { unfold SingletonSnapManager.unregister. cbn [SingletonSnapManager.unit_name me].
      fold mine. change (lock_dir st1) with (lock_dir st). by rewrite decide_True. }
    destruct (SingletonSnapManager.is_used_by_other_units me a (lock_dir st ∖ {[ mine ]}))
      as [used|e] eqn:Hused.
    + destruct (_remove_installed st1 a _ used Hst Hun Hused) as (Hd & _ & _ & H).
      split; [exact Hd|]. cbv zeta in H. rewrite E in H. by destruct used.
    + assert (∃ f msg, f ∈ lock_dir st ∧ f ≠ mine ∧
                       SnapRegistrationFile.from_filename f = Raise e ∧ e = ValueError msg)
        as Hfile.
      { unfold SingletonSnapManager.is_used_by_other_units in Hused.
        destruct (SingletonSnapManager.get_units a (lock_dir st ∖ {[ mine ]}))
          as [us|e'] eqn:G; [done|].
        injection Hused as ->.
        apply get_units_raise in G
          as (f & [Hf Hne%not_elem_of_singleton]%elem_of_difference & Hfrom).
        destruct (from_filename_raise _ _ Hfrom) as [msg ->]. by exists f, msg. }
      unfold _remove, bind, gets, manager_unregister, manager_is_used_by_other_units.
      change (installed_snap_name st1) with (installed_snap_name st). rewrite Hst.
      fold me. rewrite Hun. cbn [lock_dir with_call with_lock_dir]. rewrite Hused.
      cbn [fst snd installed_snap_name lock_dir calls with_call with_lock_dir].
      split; [done|]. split; [exact Hfile|]. split; [done|]. split; [done|].
      rewrite <- E. by rewrite <- app_assoc.
  - unfold _remove, bind, gets, manager_unregister, SingletonSnapManager.unregister.
    change (installed_snap_name st1) with (installed_snap_name st). rewrite Hst.
    cbn [SingletonSnapManager.unit_name]. fold mine.
    change (lock_dir st1) with (lock_dir st). rewrite decide_False by done.
    cbn [fst snd installed_snap_name lock_dir calls with_call with_lock_dir].
    split; [done|]. split; [done|]. split; [done|].
    unfold st1. cbn [calls with_call with_status]. by rewrite <- app_assoc.
Qed.

Lemma bind_gets {A B} (f : state → A) (k : A → M B) st :
  bind (gets f) k st = k (f st) st.
Proof. reflexivity. Qed.

Lemma bind_status {B} u (k : unit → M B) st :
  bind (_log_and_set_status u) k st = k tt (with_status u st).
Proof. reflexivity. Qed.

(** What [_install] does when a snap is configured at a resolved revision
    and the package manager installs it. *)
Lemma _install_installs st c b rev :
  conf st = c → snap_client c = Some b → snap_revision c = Some rev →
  snap_install w (calls st ++ [Register b]) b rev (snap_classic c) = true →
  let r := _install w st in
  installed_snap_name r.2 = snap_name c ∧
  lock_dir r.2
  = {[ SnapRegistrationFile.filename (SnapRegistrationFile.mk (unit_name w) b) ]}
    ∪ lock_dir st ∧
  calls r.2
  = calls st ++ [Register b; SnapInstall b rev (snap_classic c); SnapEnableAndStart b] ∧
  (r.1 = Ok tt ∨ ∃ msg, r.1 = Raise (CharmInstallError msg)).
Proof.
  intros Hc Hb Hrev Hok r. subst r.
  unfold _install, bind, gets, manager_register, ask, modify, ret, raise.
  rewrite Hc, Hb, Hrev. simpl. rewrite Hok. simpl.
  rewrite <- !app_assoc. simpl.
  destruct (snap_enable_and_start w _ b); simpl; rewrite <- ?app_assoc; simpl;
    by eauto 6.
Qed.

Lemma reconcile_frame ev st :
  installed_snap_name (reconcile w ev st).2
  = installed_snap_name (reconcile_body w ev st).2 ∧
  lock_dir (reconcile w ev st).2 = lock_dir (reconcile_body w ev st).2 ∧
  calls (reconcile w ev st).2 = calls (reconcile_body w ev st).2.
Proof.
  unfold reconcile. destruct (reconcile_body w ev st) as [[[]|e] st']; [done|].
  by destruct (is_CharmError e).
Qed.

(** C2.  Let the snap [a] be installed and registered by this unit and by
    another unit, let the options resolve to the snap [b], another snap, at
    a revision, and let the package manager install [b].  Then one run of
    [reconcile] unregisters [a], asks whether other units use it, does not
    remove it, registers and installs [b], and ends with [b] as the
    installed snap; whatever else it calls is neither a removal, nor an
    installation, nor a change of the registry. *)
Theorem reconcile_identity_change ev st a b c rev other :
  let mine := SnapRegistrationFile.filename (SnapRegistrationFile.mk (unit_name w) a) in
  let theirs := SnapRegistrationFile.filename (SnapRegistrationFile.mk other a) in
  installed_snap_name st = Some a →
  _validate_config w st = (Ok tt, with_conf c st) →
  snap_name c = Some b → b ≠ "" → a ≠ b → snap_revision c = Some rev →
  mine ∈ lock_dir st → theirs ∈ lock_dir st → theirs ≠ mine →
  Registry.encodable other a →
  (∀ f, f ∈ lock_dir st → ∃ r, SnapRegistrationFile.from_filename f = Ok r) →
  (∀ h, snap_install w h b rev (snap_classic c) = true) →
  let st' := (reconcile w ev st).2 in
  installed_snap_name st' = Some b ∧
  lock_dir st'
  = {[ SnapRegistrationFile.filename (SnapRegistrationFile.mk (unit_name w) b) ]}
    ∪ (lock_dir st ∖ {[ mine ]}) ∧
  ∃ delta,
    calls st'
    = calls st ++ [Unregister a; IsUsedByOtherUnits a; Register b;
                   SnapInstall b rev (snap_classic c); SnapEnableAndStart b] ++ delta ∧
    Forall benign delta.
Proof.
  intros mine theirs Hst Hval Hname Hb Hab Hrev Hmine Htheirs Hne Henc Hall Hinst st'.
  set (me := SingletonSnapManager.mk (unit_name w)).
  assert (SingletonSnapManager.unregister me a (lock_dir st)
          = (Ok tt, lock_dir st ∖ {[ mine ]})) as Hun.
  { unfold SingletonSnapManager.unregister. simpl. fold mine. by rewrite decide_True. }
  assert (SingletonSnapManager.is_used_by_other_units me a (lock_dir st ∖ {[ mine ]})
          = Ok true) as Hused.
  { destruct (get_units_total a (lock_dir st ∖ {[ mine ]})) as [us E].
    { intros f [Hf _]%elem_of_difference. by apply Hall. }
    apply (is_used_true _ _ _ us E).
    exists (SnapRegistrationFile._normalize_name other). split.
    - apply get_units_ok in E as [_ Hus]. apply Hus. exists theirs. split; [|exact Henc].
      apply elem_of_difference. split; [done|]. by apply not_elem_of_singleton.
    - simpl. intros E'. apply Hne. unfold theirs, mine.
      rewrite <- (filename_normalized other), E'.
      unfold SnapRegistrationFile.filename. simpl. rewrite <- E'.
      by rewrite normalize_idempotent. }
  set (st2 := with_status (MaintenanceStatus "Installing charm resources")
                (with_conf c st)).
  destruct (_remove_installed st2 a _ true Hst Hun Hused)
    as (Hd3 & Hc3 & _ & Hr3 & Hi3 & Hcalls3).
  destruct (_remove w st2) as [r3 st3] eqn:E3. simpl in Hd3, Hc3, Hr3, Hi3, Hcalls3.
  subst r3.
  assert (snap_client c = Some b) as Hclient.
  { unfold snap_client, truthy_str. rewrite Hname. by rewrite decide_False. }
  destruct (_install_installs st3 c b rev Hc3 Hclient Hrev (Hinst _))
    as (Hi4 & Hd4 & Hcalls4 & Hr4).
  destruct (_install w st3) as [r4 st4] eqn:E4. simpl in Hi4, Hd4, Hcalls4, Hr4.
  subst st'. destruct (reconcile_frame ev st) as (-> & -> & ->).
  assert (∃ tail : M unit, preserves tail ∧
            reconcile_body w ev st
            = match r4 with Ok _ => tail st4 | Raise e => (Raise e, st4) end)
    as (tail & Htail & ->).
  { eexists. split; [apply (preserves_rest ev)|].
    unfold reconcile_body. rewrite (bind_ok _ _ _ _ _ Hval), !bind_gets.
    change (installed_snap_name (with_conf c st)) with (installed_snap_name st).
    change (conf (with_conf c st)) with c.
    rewrite Hst, Hname. rewrite decide_True by congruence.
    unfold bind at 1. rewrite bind_status. fold st2.
    unfold bind at 1. rewrite E3. rewrite E4.
    by destruct r4. }
  assert (quiet st4 (match r4 with Ok _ => tail st4 | Raise e => (Raise e, st4) end).2)
    as (Hi5 & Hd5 & delta & Hcalls5 & Hbenign).
  { destruct r4; [apply Htail|apply quiet_refl]. }
  rewrite Hi5, Hd5, Hcalls5, Hi4, Hd4, Hcalls4, Hd3, Hcalls3.
  split; [done|]. split; [done|]. exists delta. split; [|done].
  simpl. by rewrite <- !app_assoc.
Qed.

(** C6, amended.  [check_required_fields] reports every required field that
    is missing, not only the first.  [reconcile] makes this check in
    [_check_status], after the steps that validate the options, change the
    installed snap and configure it: when these steps raise nothing and a
    required field is missing, the unit is blocked with the report of all the
    missing fields, in the state that these steps have produced. *)
Theorem missing_fields_blocked :
  (∀ c, check_required_fields c
        = match missing_names c with [] => None | l => Some l end) ∧
  (∀ ev st st2 missing,
     before_check w ev st = (Ok tt, st2) →
     check_required_fields (conf st2) = Some missing →
     reconcile w ev st
     = (Ok tt,
        with_status
          (BlockedStatus
             ("Missing required configuration fields: " +:+ Py.join ", " missing))
          st2)).
Proof.
  split; [exact check_required_fields_spec|].
  intros ev st st2 missing Hsteps Hmiss.
  unfold reconcile. rewrite reconcile_body_split.
  rewrite (bind_ok _ _ _ _ _ Hsteps).
  rewrite (bind_raise _ _ _ _ _ (_check_status_missing st2 missing Hmiss)).
  reflexivity.
Qed.

End CharmClaims.

(** C4, as stated, fails: when the removal that [remove] issues fails, the
    installed name is not cleared. *)
Lemma remove_keeps_name_when_removal_fails :
  let w := Scenario.world_of "app/0"
             (Scenario.config_of (Some "test-snap") (Some 10000)) true false in
  let st := Scenario.state_of (Some "test-snap") {[ "LCK..test-snap__app_0" ]} in
  (Charm.remove w st).1
  = Raise (CharmUninstallError
             "Failed to uninstall snap: test-snap. See juju debug-log for details.") ∧
  Charm.calls (Charm.remove w st).2
  = [Charm.RemoveRulesDir; Charm.Unregister "test-snap";
     Charm.IsUsedByOtherUnits "test-snap"; Charm.SnapRemove "test-snap"] ∧
  Charm.installed_snap_name (Charm.remove w st).2 = Some "test-snap".
Proof. vm_compute. done. Qed.

Lemma remove_handler_witness :
  let w := Scenario.world_of "app/0"
             (Scenario.config_of (Some "test-snap") (Some 10000)) true true in
  let st := Scenario.state_of (Some "test-snap")
              {[ "LCK..test-snap__app_0"; "LCK..test-snap__app_1" ]} in
  Charm.installed_snap_name st = Some "test-snap" ∧
  (Charm.remove w st).1 = Ok tt ∧
  Charm.installed_snap_name (Charm.remove w st).2 = None ∧
  Charm.calls (Charm.remove w st).2
  = [Charm.RemoveRulesDir; Charm.Unregister "test-snap";
     Charm.IsUsedByOtherUnits "test-snap"].
Proof.
  intros w st. split; [reflexivity|].
  pose proof (remove_handler w st "test-snap" eq_refl) as H.
  cbv zeta in H.
  rewrite decide_True in H by (by apply elem_of_union_l, elem_of_singleton).
  destruct H as [_ H].
  assert (SingletonSnapManager.is_used_by_other_units
            (SingletonSnapManager.mk (Charm.unit_name w)) "test-snap"
            (Charm.lock_dir st
             ∖ {[ SnapRegistrationFile.filename
                    (SnapRegistrationFile.mk (Charm.unit_name w) "test-snap") ]})
          = Ok true) as E by reflexivity.
  rewrite E in H. exact H.
Defined.

(** C6, as stated, fails: the missing-fields check does not come first.  With
    no snap name configured, the snap installed before is unregistered and
    removed, and then the unit is blocked for the missing field; with no
    exporter port configured, the snap is registered, installed and started,
    and then the unit is blocked. *)
Lemma missing_fields_reported_after_side_effects :
  (let w := Scenario.world_of "app/0" (Scenario.config_of None (Some 10000)) true true in
   let st := Scenario.state_of (Some "old-snap") {[ "LCK..old-snap__app_0" ]} in
   let st' := (Charm.reconcile w Charm.InstallEvent st).2 in
   Charm.unit_status st'
   = Some (Charm.BlockedStatus "Missing required configuration fields: snap-name") ∧
   Charm.calls st'
   = [Charm.Unregister "old-snap"; Charm.IsUsedByOtherUnits "old-snap";
      Charm.SnapRemove "old-snap"] ∧
   Charm.installed_snap_name st' = None) ∧
  (let w := Scenario.world_of "app/0" (Scenario.config_of (Some "test-snap") None) true true in
   let st := Scenario.state_of None ∅ in
   let st' := (Charm.reconcile w Charm.InstallEvent st).2 in
   Charm.unit_status st'
   = Some (Charm.BlockedStatus "Missing required configuration fields: exporter-port") ∧
   Charm.calls st'
   = [Charm.Register "test-snap"; Charm.SnapInstall "test-snap" 1 false;
      Charm.SnapEnableAndStart "test-snap"] ∧
   Charm.installed_snap_name st' = Some "test-snap").
Proof. vm_compute. done. Qed.

Lemma missing_fields_blocked_witness :
  let w := Scenario.world_of "app/0" (Scenario.config_of None None) true true in
  let st := Scenario.state_of None ∅ in
  Scenario.before_check w Charm.InstallEvent st
  = (Ok tt, Charm.with_conf (Scenario.config_of None None) st) ∧
  Config.check_required_fields (Scenario.config_of None None)
  = Some ["snap-name"; "exporter-port"] ∧
  Charm.unit_status (Charm.reconcile w Charm.InstallEvent st).2
  = Some (Charm.BlockedStatus
            "Missing required configuration fields: snap-name, exporter-port").
Proof.
  intros w st. split; [reflexivity|]. split; [reflexivity|].
  rewrite (proj2 (missing_fields_blocked w) Charm.InstallEvent st
             (Charm.with_conf (Scenario.config_of None None) st)
             ["snap-name"; "exporter-port"] eq_refl eq_refl).
  reflexivity.
Defined.

Lemma reconcile_identity_change_witness :
  let c := Scenario.config_of (Some "B") (Some 10000) in
  let w := Scenario.world_of "app/0" c true true in
  let st := Scenario.state_of (Some "A") {[ "LCK..A__app_0"; "LCK..A__app_1" ]} in
  Charm.installed_snap_name st = Some "A" ∧
  Charm._validate_config w st
  = (Ok tt, Charm.with_conf (Config.set_snap_revision (Some 1) c) st) ∧
  Registry.encodable "app/1" "A" ∧
  (∀ h, Charm.snap_install w h "B" 1 false = true) ∧
  Charm.installed_snap_name (Charm.reconcile w Charm.InstallEvent st).2 = Some "B".
Proof.
  intros c w st.
  assert (∀ f, f ∈ Charm.lock_dir st →
               ∃ r, SnapRegistrationFile.from_filename f = Ok r) as Hall.
  { intros f [->%elem_of_singleton| ->%elem_of_singleton]%elem_of_union;
      eexists; reflexivity. }
  assert ("LCK..A__app_0" ∈ Charm.lock_dir st) as Hmine.
  { apply elem_of_union_l. by apply elem_of_singleton. }
  assert ("LCK..A__app_1" ∈ Charm.lock_dir st) as Htheirs.
  { apply elem_of_union_r. by apply elem_of_singleton. }
  assert ("B" ≠ "") as Hb by discriminate.
  assert ("A" ≠ "B") as Hab by discriminate.
  assert ("LCK..A__app_1" ≠ "LCK..A__app_0") as Hne by discriminate.
  split; [reflexivity|]. split; [reflexivity|]. split; [reflexivity|].
  split; [reflexivity|].
  exact (proj1 (reconcile_identity_change w Charm.InstallEvent st "A" "B"
                  (Config.set_snap_revision (Some 1) c) 1 "app/1"
                  eq_refl eq_refl eq_refl Hb Hab eq_refl Hmine Htheirs Hne eq_refl
                  Hall (λ _, eq_refl))).
Defined.

(** * Further properties of the code *)

(** ** Registration files and the registry *)

Section RegistryMore.

Import SnapRegistrationFile.
Local Abbreviation manager := SingletonSnapManager.mk.
Local Abbreviation register := SingletonSnapManager.register.
Local Abbreviation unregister := SingletonSnapManager.unregister.
Local Abbreviation get_units := SingletonSnapManager.get_units.
Local Abbreviation get_units_loop := SingletonSnapManager.get_units_loop.
Local Abbreviation is_used_by_other_units := SingletonSnapManager.is_used_by_other_units.

(** X1.  The file name written for a snap whose name holds neither a dot nor
    an underscore, and for a unit whose normalized name [str.split] does not
    cut at ["__"], parses back to that snap and to the normalized name of the
    unit. *)
Theorem filename_round_trip (unit snap : string) :
  Registry.has_char "." snap = false →
  Registry.has_char "_" snap = false →
  Py.split "__" (_normalize_name unit) = [_normalize_name unit] →
  from_filename (filename (mk unit snap)) = Ok (mk (_normalize_name unit) snap).
Proof. apply encodable_plain. Qed.

Lemma filename_round_trip_witness :
  from_filename (filename (mk "grafana-agent/12" "node-exporter"))
  = Ok (mk "grafana-agent_12" "node-exporter").
Proof.
  apply (filename_round_trip "grafana-agent/12" "node-exporter"); reflexivity.
Defined.

(** X2.  A file name that [from_filename] accepts is some text, then the
    prefix, the parsed snap name, the separator and the parsed unit name. *)
Theorem parsed_filename_shape (f : string) (r : t) :
  from_filename f = Ok r →
  ∃ pre, f = pre +:+ PREFIX +:+ snap_name r +:+ SEPARATOR_UNIT +:+ unit_name r.
Proof. apply from_filename_shape. Qed.

Lemma parsed_filename_shape_witness :
  ∃ pre, "xLCK..a__b" = pre +:+ PREFIX +:+ "a" +:+ SEPARATOR_UNIT +:+ "b".
Proof. apply (parsed_filename_shape "xLCK..a__b" (mk "b" "a")). reflexivity. Defined.

Lemma string_length_append a b :
  String.length (a +:+ b) = (String.length a + String.length b)%nat.
Proof. induction a as [|c a IH]; [done|]. rewrite append_cons. simpl. by rewrite IH. Qed.

Lemma normalize_length s : String.length (_normalize_name s) = String.length s.
Proof.
  unfold _normalize_name. induction s as [|c s IH]; [done|].
  rewrite map_chars_cons. simpl. by rewrite IH.
Qed.

Lemma normalize_chars s c :
  Registry.has_char c (_normalize_name s) = true → Py.re_word_or_dash c = true.
Proof.
  unfold _normalize_name. induction s as [|a s IH]; [done|].
  rewrite map_chars_cons, has_char_cons.
  intros [Ha%bool_decide_eq_true|Hs]%orb_true_iff; [|by apply IH].
  subst c. destruct (Py.re_word_or_dash a) eqn:E; [done|apply word_underscore].
Qed.

(** X3.  [_normalize_name] keeps the length of a name, yields only
    characters of the class [[\w-]], leaves a name of such characters
    unchanged, and so changes nothing when applied twice. *)
Theorem normalize_name_properties (s : string) :
  String.length (_normalize_name s) = String.length s ∧
  (∀ c, Registry.has_char c (_normalize_name s) = true → Py.re_word_or_dash c = true) ∧
  ((∀ c, Registry.has_char c s = true → Py.re_word_or_dash c = true) →
   _normalize_name s = s) ∧
  _normalize_name (_normalize_name s) = _normalize_name s.
Proof.
  split; [apply normalize_length|]. split; [apply normalize_chars|].
  split; [|apply normalize_idempotent].
  unfold _normalize_name. induction s as [|a s IH]; [done|].
  intros H. rewrite map_chars_cons. rewrite IH.
  - rewrite (H a); [done|]. rewrite has_char_cons. by rewrite bool_decide_eq_true_2.
  - intros c Hc. apply H. rewrite has_char_cons, Hc. apply orb_true_r.
Qed.

(** X4.  Registering a unit twice for a snap is the same as registering it
    once; and when the unit was not registered before, unregistering after
    registering gives back the directory as it was. *)
Theorem register_idempotent_reversible (p X : string) (d : gset string) :
  (register (manager p) X (register (manager p) X d).2).2 = (register (manager p) X d).2 ∧
  (filename (mk p X) ∉ d →
   unregister (manager p) X (register (manager p) X d).2 = (Ok tt, d)).
Proof.
  unfold SingletonSnapManager.register, SingletonSnapManager.unregister. simpl.
  set (f := filename (mk p X)). split; [set_solver|].
  intros Hf. rewrite decide_True by set_solver. f_equal. set_solver.
Qed.

(** X5.  Registering or unregistering a unit for one snap does not change
    the units listed for another snap. *)
Theorem other_snaps_unaffected (p X Y : string) (d : gset string) (us : gset string) :
  X ≠ Y →
  Registry.encodable p X →
  get_units Y d = Ok us →
  get_units Y (register (manager p) X d).2 = Ok us ∧
  (∀ d', unregister (manager p) X d = (Ok tt, d') → get_units Y d' = Ok us).
Proof.
  intros Hne Hp Hd. set (f := filename (mk p X)).
  unfold Registry.encodable in Hp. fold f in Hp.
  pose proof (get_units_ok _ _ _ Hd) as [Hall Hus]. split.
  - simpl. fold f.
    destruct (get_units_total Y ({[ f ]} ∪ d)) as [us' E].
    { intros f' [->%elem_of_singleton|Hf']%elem_of_union; by eauto. }
    rewrite E. f_equal. apply set_eq. intros u.
    apply get_units_ok in E as [_ Hus']. rewrite Hus, Hus'. split.
    + intros (f' & [->%elem_of_singleton|Hf']%elem_of_union & E'); [|by eauto].
      rewrite Hp in E'. by simplify_eq.
    + intros (f' & Hf' & E'). exists f'. split; [set_solver|done].
  - intros d'. unfold SingletonSnapManager.unregister. simpl. fold f.
    destruct (decide (f ∈ d)) as [Hf|]; [|done]. intros [= <-].
    destruct (get_units_total Y (d ∖ {[ f ]})) as [us' E].
    { intros f' [Hf' _]%elem_of_difference. by apply Hall. }
    rewrite E. f_equal. apply set_eq. intros u.
    apply get_units_ok in E as [_ Hus']. rewrite Hus, Hus'. split.
    + intros (f' & [Hf' _]%elem_of_difference & E'). by eauto.
    + intros (f' & Hf' & E'). exists f'. split; [|done].
      apply elem_of_difference. split; [done|]. apply not_elem_of_singleton.
      intros ->. rewrite Hp in E'. by simplify_eq.
Qed.

Lemma other_snaps_unaffected_witness :
  get_units "snap-b" (register (manager "app/0") "snap-a" {[ "LCK..snap-b__app_1" ]}).2
  = Ok {[ "app_1" ]}.
Proof.
  assert ("snap-a" ≠ "snap-b") as Hne by discriminate.
  exact (proj1 (other_snaps_unaffected "app/0" "snap-a" "snap-b"
                  {[ "LCK..snap-b__app_1" ]} {[ "app_1" ]} Hne eq_refl eq_refl)).
Defined.

(** X6.  Which units [get_units] lists does not depend on the order in which
    the directory is listed. *)
Theorem get_units_listing_order (X : string) (l l' : list string) (us : gset string) :
  l ≡ₚ l' →
  get_units_loop X l ∅ = Ok us →
  get_units_loop X l' ∅ = Ok us.
Proof.
  intros Hperm [Hall Hus]%get_units_loop_ok.
  destruct (get_units_loop X l' ∅) as [us'|e] eqn:E.
  - f_equal. apply set_eq. intros u.
    apply get_units_loop_ok in E as [_ Hus']. rewrite Hus, Hus'.
    by setoid_rewrite Hperm.
  - apply get_units_loop_raise in E as (f & Hf & E).
    rewrite <- Hperm in Hf. destruct (Hall f Hf) as [r Hr]. congruence.
Qed.

Lemma get_units_listing_order_witness :
  get_units_loop "s" ["LCK..s__b"; "LCK..t__c"; "LCK..s__a"] ∅ = Ok {[ "a"; "b" ]}.
Proof.
  apply (get_units_listing_order "s" ["LCK..s__a"; "LCK..s__b"; "LCK..t__c"]).
  - etrans; [apply Permutation_swap|]. apply Permutation_skip, Permutation_swap.
  - reflexivity.
Defined.

Lemma string_length_zero s : String.length s = O → s = "".
Proof. by destruct s. Qed.

(** In a directory of registration records, parsed unit names are normalized. *)
Lemma record_unit_normalized f r :
  Registry.record_file f → from_filename f = Ok r →
  _normalize_name (unit_name r) = unit_name r.
Proof.
  intros (r' & Hr' & Hf) Hr. rewrite Hr in Hr'. injection Hr' as <-.
  destruct (from_filename_shape f r Hr) as [pre Hshape].
  unfold filename in Hf. rewrite Hshape in Hf.
  assert (pre = "") as ->.
  { apply string_length_zero. apply (f_equal String.length) in Hf.
    rewrite !string_length_append, normalize_length in Hf. lia. }
  rewrite append_nil_l in Hf.
  by do 3 apply String.app_inj in Hf.
Qed.

(** X7.  A unit whose name normalization changes, as the name of every Juju
    unit, is told that other units use a snap as soon as any unit is listed
    for it in a directory of registration records, its own record
    included. *)
Theorem is_used_with_unnormalized_name (p X : string) (d us : gset string) :
  Registry.records_only d →
  _normalize_name p ≠ p →
  get_units X d = Ok us →
  is_used_by_other_units (manager p) X d = Ok true ↔ us ≠ ∅.
Proof.
  intros Hd Hp E. unfold SingletonSnapManager.is_used_by_other_units. rewrite E.
  simpl. apply get_units_ok in E as [_ Hus]. split.
  - intros [= (u & Hu & _)%any_other_true]. set_solver.
  - intros [u Hu]%set_choose_L. f_equal. apply any_other_true.
    exists u. split; [done|].
    intros ->. apply Hus in Hu as (f & Hf & Ef).
    by apply (record_unit_normalized f _ (Hd f Hf)) in Ef.
Qed.

Lemma is_used_with_unnormalized_name_witness :
  is_used_by_other_units (manager "app/0") "snap" {[ "LCK..snap__app_0" ]} = Ok true.
Proof.
  assert (Registry.records_only {[ "LCK..snap__app_0" ]}) as Hd.
  { intros f ->%elem_of_singleton. exists (mk "app_0" "snap"). split; reflexivity. }
  assert (_normalize_name "app/0" ≠ "app/0") as Hp.
  { intros H. vm_compute in H. discriminate H. }
  assert (({[ "app_0" ]} : gset string) ≠ ∅) as Hne.
  { intros Hempty. apply (not_elem_of_empty (C:=gset string) "app_0").
    rewrite <- Hempty. by apply elem_of_singleton. }
  assert (get_units "snap" {[ "LCK..snap__app_0" ]} = Ok {[ "app_0" ]}) as Hg
    by reflexivity.
  destruct (is_used_with_unnormalized_name "app/0" "snap" {[ "LCK..snap__app_0" ]}
              {[ "app_0" ]} Hd Hp Hg) as [_ H].
  exact (H Hne).
Defined.

(** X8.  Among file names that parse back, two registrations get the same
    file exactly when they are for the same snap and for units with the same
    normalized name. *)
Theorem filename_collisions (u1 s1 u2 s2 : string) :
  Registry.encodable u1 s1 →
  Registry.encodable u2 s2 →
  filename (mk u1 s1) = filename (mk u2 s2) ↔
  s1 = s2 ∧ _normalize_name u1 = _normalize_name u2.
Proof.
  unfold Registry.encodable. intros H1 H2. split.
  - intros E. rewrite E, H2 in H1. by simplify_eq.
  - intros [-> E]. unfold filename. simpl. by rewrite E.
Qed.

Lemma filename_collisions_witness :
  filename (mk "app/0" "snap") = filename (mk "app_0" "snap").
Proof.
  apply (filename_collisions "app/0" "snap" "app_0" "snap"); [reflexivity..|].
  split; reflexivity.
Defined.

End RegistryMore.

(** ** Merged and flattened configs *)

Section MergeMore.

Import Utils Merge.

Lemma dict_set_new key v (d : dict) :
  dict_get key d = None → dict_set key v d = d ++ [(key, v)].
Proof.
  induction d as [|[k w] d IH]; simpl; [done|].
  destruct (decide (k = key)); [done|]. intros H. by rewrite IH.
Qed.

Lemma dict_get_app_none key (d1 d2 : dict) :
  dict_get key d1 = None → dict_get key (d1 ++ d2) = dict_get key d2.
Proof.
  induction d1 as [|[k w] d1 IH]; simpl; [done|].
  destruct (decide (k = key)); [done|]. exact IH.
Qed.

Lemma merge_disjoint_loop (items : dict) :
  ∀ (r : dict) path,
    unique_keys items = true →
    (∀ k, dict_get k items ≠ None → dict_get k r = None) →
    merge_dicts r items path = Ok (r ++ items).
Proof.
  induction items as [|[key v] rest IH]; intros r path Huniq Hdisj.
  - by rewrite merge_dicts_nil, app_nil_r.
  - apply unique_keys_cons in Huniq as (Hnone & _ & Hrest).
    rewrite merge_dicts_cons. rewrite (Hdisj key).
    + rewrite dict_set_new by (apply Hdisj; simpl; by rewrite decide_True).
      rewrite (IH _ path Hrest); [by rewrite <- app_assoc|].
      intros k Hk. rewrite dict_get_app_none.
      * simpl. rewrite decide_False; [done|]. intros ->. by rewrite Hnone in Hk.
      * apply Hdisj. simpl. destruct (decide (key = k)); [done|exact Hk].
    + simpl. by rewrite decide_True.
Qed.

(** X9.  Merging two maps that share no key succeeds and gives the items of
    the first followed by the items of the second; so an empty map is
    neutral on either side. *)
Theorem merge_dicts_disjoint (d1 d2 : dict) (path : string) :
  unique_keys d2 = true →
  (∀ k, dict_get k d2 ≠ None → dict_get k d1 = None) →
  merge_dicts d1 d2 path = Ok (d1 ++ d2) ∧
  merge_dicts d1 [] path = Ok d1 ∧
  merge_dicts [] d2 path = Ok d2.
Proof.
  intros Huniq Hdisj. split; [by apply merge_disjoint_loop|]. split; [done|].
  by apply (merge_disjoint_loop d2 []).
Qed.

Lemma merge_dicts_disjoint_witness :
  merge_dicts [("secret-key", VStr "s")] [("public-key", VStr "p")] ""
  = Ok [("secret-key", VStr "s"); ("public-key", VStr "p")].
Proof.
  apply (merge_dicts_disjoint [("secret-key", VStr "s")] [("public-key", VStr "p")] "").
  - reflexivity.
  - intros k. simpl. destruct (decide ("public-key" = k)) as [<-|]; done.
Defined.

(** X10.  In a successful merge, a key of the first map only keeps its value,
    a key of the second map only gets its value, and a key of both is a map
    on both sides and holds the merge of the two maps. *)
Theorem merge_dicts_lookup (d2 : dict) :
  ∀ (d1 : dict) path merged,
    unique_keys d2 = true →
    merge_dicts d1 d2 path = Ok merged →
    ∀ k,
      match dict_get k d2, dict_get k d1 with
      | None, v1 => dict_get k merged = v1
      | Some v2, None => dict_get k merged = Some v2
      | Some v2, Some v1 =>
          ∃ a b c, v1 = VDict a ∧ v2 = VDict b ∧
                   merge_dicts a b (dotted path k) = Ok c ∧
                   dict_get k merged = Some (VDict c)
      end.
Proof.
  induction d2 as [|[key v] rest IH]; intros d1 path merged Huniq.
  - rewrite merge_dicts_nil. by intros [= <-] k.
  - apply unique_keys_cons in Huniq as (Hnone & _ & Hrest).
    rewrite merge_dicts_cons. destruct (dict_get key d1) as [cur|] eqn:Hget.
    + destruct (is_dict cur && is_dict v) eqn:Hboth.
      * destruct cur as [ | | | | |a]; try done. destruct v as [ | | | | |b]; try done.
        destruct (merge_dicts a b (dotted path key)) as [c|] eqn:Hc; [|done].
        intros Hm k. specialize (IH _ _ _ Hrest Hm k). simpl.
        destruct (decide (key = k)) as [<-|Hne].
        -- rewrite Hnone in IH. rewrite dict_get_set_eq in IH. rewrite Hget.
           by exists a, b, c.
        -- by rewrite dict_get_set_ne in IH by done.
      * destruct cur, v; try done.
    + intros Hm k. specialize (IH _ _ _ Hrest Hm k). simpl.
      destruct (decide (key = k)) as [<-|Hne].
      * rewrite Hnone in IH. rewrite dict_get_set_eq in IH. by rewrite Hget.
      * by rewrite dict_get_set_ne in IH by done.
Qed.

Lemma merge_dicts_lookup_witness :
  dict_get "public-key"
    [("secret-key", VStr "s"); ("other-key", VDict [("sub-key", VInt 42); ("another", VInt 99)]);
     ("public-key", VStr "p")]
  = Some (VStr "p").
Proof.
  exact (merge_dicts_lookup
           [("public-key", VStr "p"); ("other-key", VDict [("another", VInt 99)])]
           [("secret-key", VStr "s"); ("other-key", VDict [("sub-key", VInt 42)])]
           "" _ eq_refl eq_refl "public-key").
Defined.

Lemma dict_get_none_keys key (d : dict) : dict_get key d = None ↔ key ∉ d.*1.
Proof.
  induction d as [|[k w] d IH]; simpl.
  - split; [intros _; apply not_elem_of_nil|done].
  - rewrite not_elem_of_cons. destruct (decide (k = key)) as [->|Hne].
    + split; [done|]. by intros [? _].
    + rewrite IH. split; [by intros ?|by intros [_ ?]].
Qed.

Lemma fold_set_nodup (items acc : dict) :
  NoDup (acc ++ items).*1 →
  fold_left (λ d kv, dict_set kv.1 kv.2 d) items acc = acc ++ items.
Proof.
  revert acc. induction items as [|[k v] items IH]; intros acc Hnd; simpl.
  - by rewrite app_nil_r.
  - rewrite dict_set_new.
    + rewrite IH; rewrite <- app_assoc; done.
    + apply dict_get_none_keys. rewrite fmap_app in Hnd.
      apply NoDup_app in Hnd as (_ & Hdisj & _). intros Hin.
      apply (Hdisj k Hin). simpl. by left.
Qed.

Lemma dict_of_items_nodup (items : dict) :
  NoDup items.*1 → dict_of_items items = items.
Proof. intros H. unfold dict_of_items. by rewrite fold_set_nodup. Qed.

Lemma dict_set_elem k v k' v' (d : dict) :
  (k', v') ∈ dict_set k v d → (k', v') = (k, v) ∨ (k', v') ∈ d.
Proof.
  induction d as [|[k0 w] d IH]; simpl.
  - intros ->%list_elem_of_singleton. by left.
  - destruct (decide (k0 = k)) as [->|Hne]; rewrite !elem_of_cons.
    + intros [->|?]; [by left|right; by right].
    + intros [->|[?|?]%IH]; [right; by left|by left|right; by right].
Qed.

Lemma dict_set_nodup k v (d : dict) : NoDup d.*1 → NoDup (dict_set k v d).*1.
Proof.
  induction d as [|[k0 w] d IH]; simpl.
  - intros _. apply NoDup_singleton.
  - intros [Hk0 Hd]%NoDup_cons. destruct (decide (k0 = k)) as [->|Hne]; simpl.
    + by apply NoDup_cons.
    + apply NoDup_cons. split; [|by apply IH].
      intros Hin. apply Hk0. apply dict_get_none_keys in Hk0.
      apply list_elem_of_fmap in Hin as ([k1 w1] & -> & Hin).
      apply dict_set_elem in Hin as [?|Hin]; [by simplify_eq|].
      apply list_elem_of_fmap. by exists (k1, w1).
Qed.

Lemma dict_of_items_spec (items : dict) :
  NoDup (dict_of_items items).*1 ∧
  ∀ kv, kv ∈ dict_of_items items → kv ∈ items.
Proof.
  unfold dict_of_items.
  assert (∀ acc : dict, NoDup acc.*1 →
            NoDup (fold_left (λ d kv, dict_set kv.1 kv.2 d) items acc).*1 ∧
            ∀ kv, kv ∈ fold_left (λ d kv, dict_set kv.1 kv.2 d) items acc →
                  kv ∈ acc ∨ kv ∈ items) as H.
  { induction items as [|[k v] items IH]; intros acc Hacc; simpl.
    - split; [done|]. by left.
    - destruct (IH (dict_set k v acc) (dict_set_nodup k v acc Hacc)) as [Hnd Hin].
      split; [done|]. intros [k' v'] [[?|?]%dict_set_elem|?]%Hin.
      + right. apply elem_of_cons. by left.
      + by left.
      + right. apply elem_of_cons. by right. }
  destruct (H [] (NoDup_nil_2)) as [Hnd Hin]. split; [done|].
  intros kv [?%elem_of_nil|?]%Hin; done.
Qed.

Lemma flatten_items_leaves (d : dict) :
  ∀ p k v, (k, v) ∈ flatten_items d p → is_dict v = false.
Proof.
  induction d as [|k0 v0 rest Hv IHrest|k0 sub rest IHsub IHrest]
    using dict_nested_ind; intros p k v.
  - by intros ?%elem_of_nil.
  - rewrite flatten_items_leaf by done.
    intros [?|?]%elem_of_cons; [by simplify_eq|by eapply IHrest].
  - rewrite flatten_items_dict.
    intros [Hin|?]%elem_of_app; [|by eapply IHrest].
    apply dict_of_items_spec in Hin. by eapply IHsub.
Qed.

Lemma flatten_items_of_leaves (d : dict) :
  (∀ k v, (k, v) ∈ d → is_dict v = false) → flatten_items d "" = d.
Proof.
  induction d as [|[k v] d IH]; intros H; [done|].
  rewrite flatten_items_leaf by (apply (H k); by left).
  rewrite IH; [done|]. intros k' v' Hin. apply (H k'). by right.
Qed.

(** X11.  A flattened map has no map among its values and no key twice, and
    flattening it again changes nothing. *)
Theorem flatten_dict_is_flat (d : dict) (p : string) :
  (∀ k v, (k, v) ∈ flatten_dict d p → is_dict v = false) ∧
  NoDup (flatten_dict d p).*1 ∧
  flatten_dict (flatten_dict d p) "" = flatten_dict d p.
Proof.
  assert (∀ k v, (k, v) ∈ flatten_dict d p → is_dict v = false) as Hleaves.
  { intros k v Hin. apply dict_of_items_spec in Hin. by eapply flatten_items_leaves. }
  pose proof (proj1 (dict_of_items_spec (flatten_items d p))) as Hnd.
  split; [done|]. split; [done|].
  unfold flatten_dict at 1. rewrite flatten_items_of_leaves by done.
  by apply dict_of_items_nodup.
Qed.

Lemma prefix_app_l a b s : String.prefix (a +:+ b) s = true → String.prefix a s = true.
Proof.
  revert s. induction a as [|c a IH]; intros s; [by destruct s|].
  rewrite append_cons. destruct s as [|c' s]; [done|]. simpl.
  destruct (ascii_dec c c'); [apply IH|done].
Qed.

Lemma append_assoc a b c : (a +:+ b) +:+ c = a +:+ (b +:+ c).
Proof. induction a as [|x a IH]; [done|]. by rewrite !append_cons, IH. Qed.

Lemma flatten_items_prefix (d : dict) :
  ∀ p k v, p ≠ "" → (k, v) ∈ flatten_items d p → String.prefix (p +:+ ".") k = true.
Proof.
  induction d as [|k0 v0 rest Hv IHrest|k0 sub rest IHsub IHrest]
    using dict_nested_ind; intros p k v Hp.
  - by intros ?%elem_of_nil.
  - rewrite flatten_items_leaf by done.
    intros [?|?]%elem_of_cons; [|by eapply IHrest]. simplify_eq.
    unfold dotted. rewrite decide_False by done.
    rewrite <- append_assoc. apply prefix_append.
  - rewrite flatten_items_dict.
    intros [Hin|?]%elem_of_app; [|by eapply IHrest].
    apply dict_of_items_spec in Hin. apply IHsub in Hin.
    + unfold dotted in Hin. rewrite decide_False in Hin by done.
      rewrite <- append_assoc, append_assoc in Hin. by apply prefix_app_l in Hin.
    + unfold dotted. rewrite decide_False by done. by destruct p.
Qed.

(** X12.  Under a non-empty parent key, every key of the flattened map starts
    with the parent key and a dot. *)
Theorem flatten_dict_prefix (d : dict) (p k : string) (v : value) :
  p ≠ "" → (k, v) ∈ flatten_dict d p → String.prefix (p +:+ ".") k = true.
Proof.
  intros Hp Hin. apply dict_of_items_spec in Hin. by eapply flatten_items_prefix.
Qed.

Lemma flatten_dict_prefix_witness :
  String.prefix "web." "web.tls.port" = true.
Proof.
  apply (flatten_dict_prefix [("tls", VDict [("port", VInt 443)])] "web"
           "web.tls.port" (VInt 443)).
  - discriminate.
  - by apply list_elem_of_singleton.
Defined.

End MergeMore.

(** ** The probes *)

Section ProbesMore.

Import Utils.

Lemma retry_from_ext {A} (pol : retry_policy A) (fn fn' : nat → result A) rem a s :
  (∀ n, fn n = fn' n) → retry_from pol fn rem a s = retry_from pol fn' rem a s.
Proof.
  intros Hext. revert a s. induction rem as [|rem IH]; intros a s; simpl;
    rewrite Hext; [done|]. by rewrite IH.
Qed.

(** A boolean probe, attempt by attempt. *)
Lemma bool_probe_spec (fn : nat → result bool) :
  let r := retrying bool_probe_policy fn in
  (1 ≤ attempts r ≤ 5)%nat ∧
  slept r = 2 * (Z.of_nat (attempts r) - 1) ∧
  outcome r = fn (attempts r) ∧
  (∀ n, (1 ≤ n < attempts r)%nat → fn n = Ok false) ∧
  ((attempts r < 5)%nat → fn (attempts r) ≠ Ok false).
Proof.
  intros r. subst r. unfold retrying.
  change (Nat.pred (stop_after_attempt bool_probe_policy)) with 4%nat.
  pose proof (retry_from_spec bool_probe_policy fn 4 1 0) as H.
  cbv zeta in H. set (r := retry_from _ _ _ _ _) in *. clearbody r.
  destruct H as (Hb & Hs & Hbefore & Hlast). simpl in *.
  split; [lia|]. split; [lia|]. split; [|split].
  - by destruct Hlast as [[_ ?]|(_ & _ & ?)].
  - intros n Hn. specialize (Hbefore n Hn).
    destruct (fn n) as [[]|]; by simplify_eq/=.
  - intros Hlt E. destruct Hlast as [[Hno _]|(? & _ & _)]; [|lia].
    by rewrite E in Hno.
Qed.

(** A boolean probe passes exactly when one of its first five attempts
    passes, the attempts before it having returned [False]. *)
Lemma bool_probe_passes (b : nat → bool) :
  outcome (retrying bool_probe_policy (λ n, Ok (b n))) = Ok true ↔
  ∃ n, (1 ≤ n ≤ 5)%nat ∧ b n = true ∧ ∀ m, (1 ≤ m < n)%nat → b m = false.
Proof.
  destruct (bool_probe_spec (λ n, Ok (b n))) as (Hb & _ & Hout & Hbefore & Hlast).
  set (r := retrying _ _) in *. clearbody r. rewrite Hout. split.
  - intros [= E]. exists (attempts r). split; [done|]. split; [done|].
    intros m Hm. specialize (Hbefore m Hm). by simplify_eq.
  - intros (n & Hn & Hpass & Hfail). f_equal.
    destruct (lt_eq_lt_dec (attempts r) n) as [[Hlt| ->]|Hgt]; [|done|].
    + destruct Hlast; [lia|]. f_equal. apply Hfail. lia.
    + assert (Ok (b n) = Ok false) as [= E] by (apply Hbefore; lia). congruence.
Qed.

(** X13.  [check_metrics_endpoint] returns [True] exactly when, among its
    first five requests, one is answered with status 200, the requests
    before it having failed or been answered with another status. *)
Theorem metrics_endpoint_reachable (get : nat → http_reply) :
  outcome (check_metrics_endpoint get) = Ok true ↔
  ∃ n, (1 ≤ n ≤ 5)%nat ∧ get n = HttpStatus 200 ∧
       ∀ m, (1 ≤ m < n)%nat → get m ≠ HttpStatus 200.
Proof.
  set (b n := match get n with HttpStatus code => code =? 200 | RequestException => false end).
  assert (∀ n, check_metrics_endpoint_body (get n) = Ok (b n)) as Hbody.
  { intros n. unfold check_metrics_endpoint_body, b. by destruct (get n). }
  assert (∀ n, b n = true ↔ get n = HttpStatus 200) as Hb.
  { intros n. unfold b. destruct (get n) as [code|]; [|done].
    rewrite Z.eqb_eq. split; [by intros ->|by intros [= ->]]. }
  unfold check_metrics_endpoint.
  assert (retrying bool_probe_policy (λ n, check_metrics_endpoint_body (get n))
          = retrying bool_probe_policy (λ n, Ok (b n))) as ->.
  { unfold retrying. by apply retry_from_ext. }
  rewrite bool_probe_passes. split.
  - intros (n & Hn & Hp & Hf). exists n. split; [done|]. split; [by apply Hb|].
    intros m Hm E%Hb. rewrite (Hf m Hm) in E. done.
  - intros (n & Hn & Hp & Hf). exists n. split; [done|]. split; [by apply Hb|].
    intros m Hm. apply not_true_is_false. intros E%Hb. by apply (Hf m Hm).
Qed.

(** X14.  [SnapClient.check] returns [True] exactly when, at one of its
    first five attempts, every service of the snap is reported active, the
    attempts before it having found an inactive service; a service without
    an ["active"] entry counts as inactive, and a snap without services
    passes at the first attempt. *)
Theorem snap_check_passes (services : nat → list (string * SnapClient.service)) :
  (outcome (SnapClient.check services) = Ok true ↔
   ∃ n, (1 ≤ n ≤ 5)%nat ∧ Forall (λ s, s.2 = Some true) (services n) ∧
        ∀ m, (1 ≤ m < n)%nat → ¬ Forall (λ s, s.2 = Some true) (services m)) ∧
  (services 1%nat = [] →
   SnapClient.check services = {| outcome := Ok true; attempts := 1; slept := 0 |}).
Proof.
  assert (∀ l : list (string * SnapClient.service),
            forallb (λ s, default false s.2) l = true ↔ Forall (λ s, s.2 = Some true) l)
    as Hall.
  { intros l. rewrite forallb_forall, Forall_forall. split.
    - intros H s Hs%list_elem_of_In. specialize (H s Hs).
      by destruct (s.2) as [[]|].
    - intros H s Hs%list_elem_of_In. by rewrite (H s Hs). }
  split.
  - unfold SnapClient.check, SnapClient.check_body. rewrite bool_probe_passes.
    split; intros (n & Hn & Hp & Hf); exists n; (split; [done|]); split.
    + by apply Hall.
    + intros m Hm E%Hall. by rewrite (Hf m Hm) in E.
    + by apply Hall.
    + intros m Hm. apply not_true_is_false. intros E%Hall. by apply (Hf m Hm).
  - intros E. unfold SnapClient.check, retrying. simpl.
    unfold SnapClient.check_body. by rewrite E.
Qed.

(** X15.  [decode_secret_with_retry] tries again after a
    [SecretAccessError] only: a first attempt that returns, or that raises
    anything else, is the only attempt, and no time is slept. *)
Theorem decode_secret_not_retried (fn : nat → result dict) :
  (∀ msg, fn 1%nat ≠ Raise (SecretAccessError msg)) →
  decode_secret_with_retry fn = {| outcome := fn 1%nat; attempts := 1; slept := 0 |}.
Proof.
  intros H. unfold decode_secret_with_retry, retrying. simpl.
  destruct (fn 1%nat) as [d|e] eqn:E; [done|].
  destruct e; try done. by destruct (H msg).
Qed.

Lemma decode_secret_not_retried_witness :
  decode_secret_with_retry
    (λ _, Raise (SecretInvalidContentError "The config field is missing in secret 's'."))
  = {| outcome := Raise (SecretInvalidContentError
                           "The config field is missing in secret 's'.");
       attempts := 1; slept := 0 |}.
Proof.
  apply (decode_secret_not_retried
           (λ _, Raise (SecretInvalidContentError
                          "The config field is missing in secret 's'."))).
  discriminate.
Defined.

End ProbesMore.

(** ** The handlers of the charm *)

Section CharmMore.

Import Config Charm Scenario.

Context (w : world).

Lemma raises_ret {A} P (a : A) : raises_only P (ret a).
Proof. by intros st e. Qed.

Lemma raises_gets {A} P (f : state → A) : raises_only P (gets f).
Proof. by intros st e. Qed.

Lemma raises_modify P f : raises_only P (modify f).
Proof. by intros st e. Qed.

Lemma raises_ask {A} P c (answer : list call → A) : raises_only P (ask c answer).
Proof. by intros st e. Qed.

Lemma raises_raise {A} (P : exn → Prop) e : P e → raises_only P (raise (A:=A) e).
Proof. intros He st e'. simpl. by intros [= <-]. Qed.

Lemma raises_bind {A B} P (m : M A) (k : A → M B) :
  raises_only P m → (∀ a, raises_only P (k a)) → raises_only P (bind m k).
Proof.
  intros Hm Hk st e. unfold bind. specialize (Hm st).
  destruct (m st) as [[a|e'] st']; simpl in *.
  - apply Hk.
  - intros [= <-]. by apply Hm.
Qed.

Lemma raises_status P u : raises_only P (_log_and_set_status u).
Proof. by intros st e. Qed.

Lemma bool_probe_returns (fn : nat → result bool) :
  (∀ n, ∃ b, fn n = Ok b) →
  ∃ b, Utils.outcome (Utils.retrying Utils.bool_probe_policy fn) = Ok b.
Proof.
  intros H. destruct (bool_probe_spec fn) as (_ & _ & -> & _). apply H.
Qed.

Lemma raises_client_check P snap : raises_only P (client_check w snap).
Proof.
  intros st e. unfold client_check. cbn [fst].
  destruct (bool_probe_returns (λ n, SnapClient.check_body (snap_services w (calls st) snap n)))
    as [b Hb]; [by eauto|].
  unfold SnapClient.check. by rewrite Hb.
Qed.

Lemma raises_check_metrics_endpoint P url : raises_only P (check_metrics_endpoint w url).
Proof.
  intros st e. unfold check_metrics_endpoint. cbn [fst].
  destruct (bool_probe_returns
              (λ n, Utils.check_metrics_endpoint_body (http_get w (calls st) url n)))
    as [b Hb].
  { intros n. unfold Utils.check_metrics_endpoint_body. destruct (http_get _ _ _ _); by eauto. }
  unfold Utils.check_metrics_endpoint. by rewrite Hb.
Qed.

Lemma raises_manager_register P m snap : raises_only P (manager_register m snap).
Proof. by intros st e. Qed.

Ltac raises_step :=
  lazymatch goal with
  | |- raises_only _ (bind _ _) => apply raises_bind; [|intros ?]
  | |- raises_only _ (ret _) => apply raises_ret
  | |- raises_only _ (raise _) => apply raises_raise; first [reflexivity | by left]
  | |- raises_only _ (gets _) => apply raises_gets
  | |- raises_only _ (modify _) => apply raises_modify
  | |- raises_only _ (ask _ _) => apply raises_ask
  | |- raises_only _ (_log_and_set_status _) => apply raises_status
  | |- raises_only _ (client_check _ _) => apply raises_client_check
  | |- raises_only _ (check_metrics_endpoint _ _) => apply raises_check_metrics_endpoint
  | |- raises_only _ (manager_register _ _) => apply raises_manager_register
  | |- raises_only _ (match ?x with _ => _ end) => destruct x
  end.


Lemma raises__check_status : raises_only charm_error (_check_status w).
Proof. unfold _check_status. cbv zeta. repeat raises_step. Qed.





(** [_validate_config] changes nothing but the configuration, and nothing
    at all when it raises. *)
Lemma _validate_config_ok st st1 :
  _validate_config w st = (Ok tt, st1) → st1 = with_conf (conf st1) st.
Proof.
  unfold _validate_config, bind, ret, raise, modify.
  repeat case_match; intros; simplify_eq; done.
Qed.

Lemma _validate_config_raise st e st1 :
  _validate_config w st = (Raise e, st1) → st1 = st.
Proof.
  unfold _validate_config, bind, ret, raise, modify.
  repeat case_match; intros; by simplify_eq.
Qed.




Lemma bind_inv {A B} (m : M A) (k : A → M B) st b st' :
  bind m k st = (Ok b, st') → ∃ a st1, m st = (Ok a, st1) ∧ k a st1 = (Ok b, st').
Proof. unfold bind. destruct (m st) as [[a|e] st1]; [by eauto|done]. Qed.

(** What a run of [_check_status] that returns has established. *)
Lemma _check_status_ok st st3 :
  _check_status w st = (Ok tt, st3) →
  let c := conf st in
  let url := "http://localhost:" +:+ str_opt_int (exporter_port c) +:+ "/"
             +:+ metrics_path c in
  check_required_fields c = None ∧
  cos_agent_related w = true ∧
  conf st3 = c ∧
  ∃ h, calls st3 = h ++ [CheckMetricsEndpoint url] ∧
       Utils.outcome (Utils.check_metrics_endpoint (http_get w h url)) = Ok true.
Proof.
  intros H c url. unfold _check_status in H. rewrite bind_gets in H. fold c in H.
  destruct (check_required_fields c) as [[|f fs]|] eqn:Hreq.
  - rewrite check_required_fields_spec in Hreq. by destruct (missing_names c).
  - done.
  - cbv zeta in H. fold url in H.
    apply bind_inv in H as ([] & st1 & H1 & H).
    apply bind_inv in H as (reachable & st2 & H2 & H).
    destruct reachable; cbn [negb] in H; [|done].
    destruct (cos_agent_related w); cbn [negb] in H; [|done].
    injection H as <-.
    unfold check_metrics_endpoint in H2. injection H2 as Hout <-.
    assert (conf st1 = c) as Hc1.
    { destruct (snap_client c); [|by injection H1 as <-].
      apply bind_inv in H1 as (active & st0 & H0 & H1).
      destruct active; cbn [negb] in H1; [|done].
      injection H1 as <-. unfold client_check in H0. by injection H0 as _ <-. }
    split; [done|]. split; [done|]. split; [exact Hc1|]. by exists (calls st1).
Qed.

(** X17.  A run of [reconcile] that returns leaves the unit blocked or
    active, and it is active only if no required field is missing, the
    [cos-agent] relation exists and the last call was the probe of the
    metrics endpoint of the configuration, which answered. *)
Theorem reconcile_outcome ev st :
  (reconcile w ev st).1 = Ok tt →
  let st' := (reconcile w ev st).2 in
  let url := "http://localhost:" +:+ str_opt_int (exporter_port (conf st')) +:+ "/"
             +:+ metrics_path (conf st') in
  (∃ e, charm_error e ∧ unit_status st' = Some (BlockedStatus (str_exn e))) ∨
  (unit_status st' = Some ActiveStatus ∧
   check_required_fields (conf st') = None ∧
   cos_agent_related w = true ∧
   ∃ h, calls st' = h ++ [CheckMetricsEndpoint url] ∧
        Utils.outcome (Utils.check_metrics_endpoint (http_get w h url)) = Ok true).
Proof.
  unfold reconcile. rewrite reconcile_body_split.
  destruct (before_check w ev st) as [[[]|e] st2] eqn:Hb.
  - rewrite (bind_ok _ _ _ _ _ Hb).
    destruct (_check_status w st2) as [[[]|e] st3] eqn:Hc.
    + rewrite (bind_ok _ _ _ _ _ Hc). intros _.
      destruct (_check_status_ok _ _ Hc) as (Hreq & Hcos & Hconf & h & Hcalls & Hout).
      right. cbn. rewrite Hconf. split; [done|]. split; [done|]. split; [done|].
      by exists h.
    + rewrite (bind_raise _ _ _ _ _ Hc).
      pose proof (raises__check_status st2 e) as He. rewrite Hc in He.
      specialize (He eq_refl). unfold charm_error in He. rewrite He.
      intros _. left. by exists e.
  - rewrite (bind_raise _ _ _ _ _ Hb).
    destruct (is_CharmError e) eqn:He; [|done].
    intros _. left. by exists e.
Qed.


(** X19.  When [_validate_config] raises a [CharmConfigError],
    [reconcile] blocks the unit with its message and does nothing else: no
    call is made, and the installed name, the stored configuration and the
    registry are as before. *)
Theorem reconcile_invalid_config ev st msg :
  (_validate_config w st).1 = Raise (CharmConfigError msg) →
  reconcile w ev st = (Ok tt, with_status (BlockedStatus msg) st).
Proof.
  destruct (_validate_config w st) as [r st1] eqn:Hval. cbn [fst]. intros ->.
  rewrite (_validate_config_raise _ _ _ Hval) in Hval.
  unfold reconcile, reconcile_body. by rewrite (bind_raise _ _ _ _ _ Hval).
Qed.

Lemma _remove_nothing st :
  installed_snap_name st = None → _remove w st = (Ok tt, st).
Proof. intros H. unfold _remove. rewrite bind_gets, H. reflexivity. Qed.

Lemma remove_nothing st :
  installed_snap_name st = None →
  remove w st
  = (Ok tt, with_call RemoveRulesDir
              (with_status (MaintenanceStatus "Removing charm resources") st)).
Proof.
  intros H. unfold remove. rewrite bind_status. unfold bind at 1. cbn [modify].
  by rewrite _remove_nothing.
Qed.

Lemma snap_client_named c b : snap_name c = Some b → b ≠ "" → snap_client c = Some b.
Proof. intros H Hb. unfold snap_client, truthy_str. rewrite H. by rewrite decide_False. Qed.

(** What [_install] does when the package manager does not install the snap. *)
Lemma _install_fails st c b rev :
  conf st = c → snap_name c = Some b → b ≠ "" → snap_revision c = Some rev →
  snap_install w (calls st ++ [Register b]) b rev (snap_classic c) = false →
  let r := _install w st in
  r.1 = Raise (CharmInstallError ("Failed to install snap: " +:+ b +:+ ". " +:+ SEE_LOG)) ∧
  installed_snap_name r.2 = installed_snap_name st ∧
  conf r.2 = c ∧
  lock_dir r.2
  = {[ SnapRegistrationFile.filename (SnapRegistrationFile.mk (unit_name w) b) ]}
    ∪ lock_dir st ∧
  calls r.2 = calls st ++ [Register b; SnapInstall b rev (snap_classic c)].
Proof.
  intros Hc Hname Hb Hrev Hfail r. subst r.
  unfold _install, bind, gets, manager_register, ask, modify, ret, raise.
  rewrite Hc, (snap_client_named c b Hname Hb), Hrev. simpl. rewrite Hfail. simpl.
  rewrite Hname, <- app_assoc. done.
Qed.

(** X20.  On a unit with no snap installed, when the options are valid and
    name a snap at a revision and the package manager fails to install it,
    [reconcile] registers the snap, asks for the installation and blocks the
    unit.  No snap is recorded as installed, but the registration of the
    unit stays in the lock directory, and a later [remove] leaves it there. *)
Theorem reconcile_install_fails ev st st1 b rev :
  let mine := SnapRegistrationFile.filename (SnapRegistrationFile.mk (unit_name w) b) in
  let classic := snap_classic (conf st1) in
  installed_snap_name st = None →
  _validate_config w st = (Ok tt, st1) →
  snap_name (conf st1) = Some b → b ≠ "" → snap_revision (conf st1) = Some rev →
  snap_install w (calls st ++ [Register b]) b rev classic = false →
  let r := reconcile w ev st in
  r.1 = Ok tt ∧
  unit_status r.2
  = Some (BlockedStatus ("Failed to install snap: " +:+ b +:+ ". " +:+ SEE_LOG)) ∧
  installed_snap_name r.2 = None ∧
  lock_dir r.2 = {[ mine ]} ∪ lock_dir st ∧
  calls r.2 = calls st ++ [Register b; SnapInstall b rev classic] ∧
  (remove w r.2).1 = Ok tt ∧ mine ∈ lock_dir (remove w r.2).2.
Proof.
  intros mine classic Hst Hval Hname Hb Hrev Hfail r.
  pose proof (_validate_config_ok _ _ Hval) as Hst1.
  set (st2 := with_status (MaintenanceStatus "Installing charm resources") st1).
  assert (installed_snap_name st2 = None) as Hi2 by (unfold st2; by rewrite Hst1).
  assert (calls st2 = calls st) as Hc2 by (unfold st2; by rewrite Hst1).
  assert (lock_dir st2 = lock_dir st) as Hd2 by (unfold st2; by rewrite Hst1).
  assert (snap_install w (calls st2 ++ [Register b]) b rev (snap_classic (conf st1))
          = false) as Hfail2 by (by rewrite Hc2).
  destruct (_install_fails st2 (conf st1) b rev eq_refl Hname Hb Hrev Hfail2)
    as (Hr & Hi & _ & Hd & Hc).
  destruct (_install w st2) as [r3 st3] eqn:E3. cbn [fst snd] in Hr, Hi, Hd, Hc.
  subst r3.
  assert (r = (Ok tt,
               with_status
                 (BlockedStatus ("Failed to install snap: " +:+ b +:+ ". " +:+ SEE_LOG))
                 st3)) as ->.
  { unfold r, reconcile, reconcile_body.
    rewrite (bind_ok _ _ _ _ _ Hval), !bind_gets.
    assert (installed_snap_name st1 = None) as -> by (by rewrite Hst1).
    rewrite Hname. rewrite decide_True by done.
    unfold bind at 1. rewrite bind_status. fold st2.
    unfold bind at 1. rewrite (_remove_nothing st2 Hi2), E3. reflexivity. }
  clearbody st2. cbn [fst snd].
  split; [done|]. split; [done|]. split; [simpl; congruence|].
  split; [simpl; by rewrite Hd, Hd2|]. split; [simpl; by rewrite Hc, Hc2|].
  rewrite remove_nothing by (simpl; congruence).
  split; [done|]. simpl. rewrite Hd. set_solver.
Qed.


Lemma _remove_unregistered st a :
  let mine := SnapRegistrationFile.filename (SnapRegistrationFile.mk (unit_name w) a) in
  installed_snap_name st = Some a → mine ∉ lock_dir st →
  let r := _remove w st in
  r.1 = Raise (FileNotFoundError mine) ∧
  installed_snap_name r.2 = Some a ∧ lock_dir r.2 = lock_dir st ∧
  calls r.2 = calls st ++ [Unregister a].
Proof.
  intros mine Hst Hmine r. subst r.
  unfold _remove, bind, gets, manager_unregister, SingletonSnapManager.unregister.
  rewrite Hst. cbn [SingletonSnapManager.unit_name]. fold mine.
  by rewrite decide_False.
Qed.

(** X22.  When the removal that [remove] issues fails, the registration of
    the unit is already deleted while the snap is still recorded as
    installed.  A second run of [remove] then stops on the missing
    registration file: [FileNotFoundError] leaves the handler before the
    registry is asked and before any removal is issued. *)
Theorem remove_again_after_failure st a :
  let me := SingletonSnapManager.mk (unit_name w) in
  let mine := SnapRegistrationFile.filename (SnapRegistrationFile.mk (unit_name w) a) in
  installed_snap_name st = Some a →
  mine ∈ lock_dir st →
  SingletonSnapManager.is_used_by_other_units me a (lock_dir st ∖ {[ mine ]}) = Ok false →
  snap_remove w (calls st ++ [RemoveRulesDir; Unregister a; IsUsedByOtherUnits a]) a
  = false →
  let st1 := (remove w st).2 in
  let r := remove w st1 in
  r.1 = Raise (FileNotFoundError mine) ∧
  installed_snap_name r.2 = Some a ∧
  lock_dir r.2 = lock_dir st ∖ {[ mine ]} ∧
  calls r.2
  = calls st ++ [RemoveRulesDir; Unregister a; IsUsedByOtherUnits a; SnapRemove a;
                 RemoveRulesDir; Unregister a].
Proof.
  intros me mine Hst Hmine Hused Hfail st1 r.
  set (st0 := with_call RemoveRulesDir
                (with_status (MaintenanceStatus "Removing charm resources") st)).
  assert (remove w st = _remove w st0) as E0 by reflexivity.
  assert (SingletonSnapManager.unregister me a (lock_dir st0)
          = (Ok tt, lock_dir st ∖ {[ mine ]})) as Hun.
  { unfold SingletonSnapManager.unregister. cbn [SingletonSnapManager.unit_name me].
    fold mine. change (lock_dir st0) with (lock_dir st). by rewrite decide_True. }
  destruct (_remove_installed w st0 a _ false Hst Hun Hused) as (Hd1 & _ & _ & Hc1 & H1).
  assert (calls st0 ++ [Unregister a; IsUsedByOtherUnits a]
          = calls st ++ [RemoveRulesDir; Unregister a; IsUsedByOtherUnits a]) as E.
  { simpl. by rewrite <- app_assoc. }
  rewrite E in Hc1, H1. rewrite Hfail in H1. destruct H1 as [_ Hi1].
  rewrite <- E0 in Hd1, Hc1, Hi1. fold st1 in Hd1, Hc1, Hi1. clearbody st1. clear E0.
  set (st2 := with_call RemoveRulesDir
                (with_status (MaintenanceStatus "Removing charm resources") st1)).
  assert (r = _remove w st2) as -> by reflexivity.
  destruct (_remove_unregistered st2 a) as (Hr & Hi & Hd & Hc).
  { exact Hi1. }
  { change (lock_dir st2) with (lock_dir st1). rewrite Hd1. set_solver. }
  split; [exact Hr|]. split; [exact Hi|]. split; [by rewrite Hd|].
  rewrite Hc. change (calls st2) with (calls st1 ++ [RemoveRulesDir]).
  rewrite Hc1. by rewrite <- !app_assoc.
Qed.

End CharmMore.


Lemma reconcile_outcome_witness :
  let w := Scenario.world_of "app/0"
             (Scenario.config_of (Some "test-snap") (Some 10000)) true true in
  let st := Scenario.state_of None ∅ in
  (Charm.reconcile w Charm.ConfigChangedEvent st).1 = Ok tt ∧
  ∃ u, Charm.unit_status (Charm.reconcile w Charm.ConfigChangedEvent st).2 = Some u.
Proof.
  intros w st. split; [reflexivity|].
  destruct (reconcile_outcome w Charm.ConfigChangedEvent st eq_refl)
    as [(e & _ & H)|(H & _)]; eexists; exact H.
Defined.


Lemma reconcile_install_fails_witness :
  let c := Scenario.config_of (Some "test-snap") (Some 10000) in
  let w := Scenario.world_of "app/0" c false true in
  let st := Scenario.state_of None ∅ in
  let st1 := Charm.with_conf (Config.set_snap_revision (Some 1) c) st in
  Charm._validate_config w st = (Ok tt, st1) ∧
  Charm.snap_install w [Charm.Register "test-snap"] "test-snap" 1 false = false ∧
  Charm.calls (Charm.reconcile w Charm.InstallEvent st).2
  = [Charm.Register "test-snap"; Charm.SnapInstall "test-snap" 1 false].
Proof.
  intros c w st st1. split; [reflexivity|]. split; [reflexivity|].
  assert ("test-snap" ≠ "") as Hb by discriminate.
  exact (proj1 (proj2 (proj2 (proj2 (proj2
           (reconcile_install_fails w Charm.InstallEvent st st1 "test-snap" 1
              eq_refl eq_refl eq_refl Hb eq_refl eq_refl)))))).
Defined.


Lemma remove_again_after_failure_witness :
  let w := Scenario.world_of "app/0"
             (Scenario.config_of (Some "test-snap") (Some 10000)) true false in
  let st := Scenario.state_of (Some "test-snap") {[ "LCK..test-snap__app_0" ]} in
  "LCK..test-snap__app_0" ∈ Charm.lock_dir st ∧
  SingletonSnapManager.is_used_by_other_units (SingletonSnapManager.mk "app/0")
    "test-snap" (Charm.lock_dir st ∖ {[ "LCK..test-snap__app_0" ]}) = Ok false ∧
  (Charm.remove w (Charm.remove w st).2).1
  = Raise (FileNotFoundError "LCK..test-snap__app_0").
Proof.
  intros w st.
  assert ("LCK..test-snap__app_0" ∈ Charm.lock_dir st) as Hmine.
  { unfold st, Scenario.state_of. cbn [Charm.lock_dir]. by apply elem_of_singleton. }
  split; [exact Hmine|]. split; [reflexivity|].
  exact (proj1 (remove_again_after_failure w st "test-snap"
                  eq_refl Hmine eq_refl eq_refl)).
Defined.

Lemma reconcile_invalid_config_witness :
  let c := {| Config.snap_name := Some "test-snap";
              Config.exporter_port := Some 10000;
              Config.snap_classic := false;
              Config.snap_channel := Some "latest/stable";
              Config.snap_revision := None;
              Config.snap_config := None;
              Config.metrics_path := "metrics";
              Config.snap_plugs := None;
              Config.snap_config_secret := Some "secret:abc" |} in
  let w := Scenario.world_of "app/0" c true true in
  let st := Scenario.state_of (Some "test-snap") {[ "LCK..test-snap__app_0" ]} in
  let msg := "Secret 'secret:abc' does not exist." in
  (Charm._validate_config w st).1 = Raise (CharmConfigError msg) ∧
  Charm.reconcile w Charm.ConfigChangedEvent st
  = (Ok tt, Charm.with_status (Charm.BlockedStatus msg) st).
Proof.
  intros c w st msg. split; [reflexivity|].
  exact (reconcile_invalid_config w Charm.ConfigChangedEvent st msg eq_refl).
Defined.

(** ** The validators of the options *)

Section ValidatorsMore.

Import Config Utils Validators Text.

Lemma rstrip_cons p c rest :
  rstrip p (String c rest)
  = match rstrip p rest with
    | EmptyString => if p c then EmptyString else String c EmptyString
    | kept => String c kept
    end.
Proof. reflexivity. Qed.

Lemma last_char_cons c k ks : last_char (String c (String k ks)) = last_char (String k ks).
Proof. reflexivity. Qed.

Lemma lstrip_spec p s :
  ∃ l, s = l +:+ lstrip p s ∧ all_chars p l = true ∧
       ∀ c, first_char (lstrip p s) = Some c → p c = false.
Proof.
  induction s as [|a s (l & Hs & Hl & Hc)].
  - exists "". by split.
  - cbn [lstrip]. destruct (p a) eqn:Ha.
    + exists (String a l). rewrite append_cons, <- Hs. split; [done|].
      split; [|done]. cbn [all_chars]. by rewrite Ha, Hl.
    + exists "". split; [done|]. split; [done|]. by intros c [= <-].
Qed.

Lemma rstrip_spec p s :
  ∃ r, s = rstrip p s +:+ r ∧ all_chars p r = true ∧
       ∀ c, last_char (rstrip p s) = Some c → p c = false.
Proof.
  induction s as [|a s (r & Hs & Hr & Hc)].
  - exists "". by split.
  - rewrite rstrip_cons. destruct (rstrip p s) as [|k ks] eqn:E.
    + rewrite append_nil_l in Hs. subst r. destruct (p a) eqn:Ha.
      * exists (String a s). split; [done|]. split; [|done].
        cbn [all_chars]. by rewrite Ha, Hr.
      * exists s. split; [done|]. split; [done|]. by intros c [= <-].
    + exists r. rewrite append_cons, <- Hs. split; [done|]. split; [done|].
      intros c. rewrite last_char_cons. apply Hc.
Qed.

Lemma lstrip_last p s c : last_char (lstrip p s) = Some c → last_char s = Some c.
Proof.
  induction s as [|a s IH]; [done|]. cbn [lstrip].
  destruct (p a); [|done]. intros H. specialize (IH H).
  destruct s; [done|]. by rewrite last_char_cons.
Qed.

Lemma lstrip_fixed p s :
  (∀ c, first_char s = Some c → p c = false) → lstrip p s = s.
Proof. destruct s as [|a s]; [done|]. intros H. cbn [lstrip]. by rewrite (H a). Qed.

Lemma rstrip_fixed p s :
  (∀ c, last_char s = Some c → p c = false) → rstrip p s = s.
Proof.
  induction s as [|a s IH]; [done|]. intros H. rewrite rstrip_cons.
  destruct s as [|k ks].
  - cbn [rstrip]. by rewrite (H a).
  - rewrite IH; [done|]. intros c Hc. apply H. by rewrite last_char_cons.
Qed.

Lemma strip_spec s : stripped_of is_space s (strip s).
Proof.
  unfold strip. destruct (rstrip_spec is_space s) as (r & Hs & Hr & Hlast).
  destruct (lstrip_spec is_space (rstrip is_space s)) as (l & Hk & Hl & Hfirst).
  exists l, r. split; [|split; [done|split; [done|]]].
  - rewrite <- append_assoc, <- Hk. exact Hs.
  - split; [exact Hfirst|]. intros c Hc. apply Hlast. by apply (lstrip_last is_space).
Qed.

Lemma strip_fixed s : trimmed is_space s → strip s = s.
Proof.
  intros [Hf Hl]. unfold strip. rewrite (rstrip_fixed _ _ Hl). by apply lstrip_fixed.
Qed.

Lemma strip_idempotent s : strip (strip s) = strip s.
Proof. destruct (strip_spec s) as (l & r & _ & _ & _ & H). by apply strip_fixed. Qed.

(** X23.  [validate_snap_name] and [validate_channel] return [None] for
    [None] and otherwise only a string: the given string without the white
    space at its two ends, which is not empty.  What they return they accept
    again unchanged. *)
Theorem validate_name_and_channel v v' :
  validate_snap_name v = Ok v' ∨ validate_channel v = Ok v' →
  (v = VNone ∧ v' = VNone) ∨
  (∃ s s', v = VStr s ∧ v' = VStr s' ∧ s' ≠ "" ∧ stripped_of is_space s s') ∧
  validate_snap_name v' = Ok v' ∧ validate_channel v' = Ok v'.
Proof.
  assert (∀ s, strip s ≠ "" →
               validate_snap_name (VStr (strip s)) = Ok (VStr (strip s)) ∧
               validate_channel (VStr (strip s)) = Ok (VStr (strip s))) as Hagain.
  { intros s Hs. unfold validate_snap_name, validate_channel.
    rewrite strip_idempotent. by rewrite !decide_False by done. }
  intros [H|H]; destruct v as [|b|z|s|l|items]; try done.
  - left. split; [done|]. by injection H as <-.
  - right. unfold validate_snap_name in H. destruct (decide (strip s = "")); [done|].
    injection H as <-. split; [|by apply Hagain].
    exists s, (strip s). split; [done|]. split; [done|]. split; [done|]. apply strip_spec.
  - left. split; [done|]. by injection H as <-.
  - right. unfold validate_channel in H. destruct (decide (strip s = "")); [done|].
    injection H as <-. split; [|by apply Hagain].
    exists s, (strip s). split; [done|]. split; [done|]. split; [done|]. apply strip_spec.
Qed.

Lemma all_chars_slash_first s :
  ∀ c, first_char (lstrip is_slash s) = Some c → c ≠ "/"%char.
Proof.
  destruct (lstrip_spec is_slash s) as (_ & _ & _ & H). intros c Hc.
  specialize (H c Hc). unfold is_slash in H. by apply bool_decide_eq_false in H.
Qed.

(** X24.  [normalize_metrics_path] removes the white space at the two ends
    of the path and then the slashes at its start: what is left does not
    start with a slash and does not end with white space.  It can start with
    white space, which a second pass would remove. *)
Theorem normalize_metrics_path_spec v :
  let out := normalize_metrics_path v in
  (∃ l m r, v = l +:+ m +:+ out +:+ r ∧ all_chars is_space l = true ∧
            all_chars is_slash m = true ∧ all_chars is_space r = true) ∧
  first_char out ≠ Some "/"%char ∧
  (∀ c, last_char out = Some c → is_space c = false) ∧
  normalize_metrics_path "/ metrics" = " metrics".
Proof.
  intros out. subst out.
  change (normalize_metrics_path v) with (lstrip is_slash (strip v)).
  destruct (strip_spec v) as (l & r & Hv & Hl & Hr & _ & Hlast).
  destruct (lstrip_spec is_slash (strip v)) as (m & Hm & Hm' & _).
  split; [|split; [|split]].
  - exists l, m, r. split; [|done].
    rewrite <- (append_assoc m), <- Hm. exact Hv.
  - intros H. by apply (all_chars_slash_first (strip v)) in H.
  - intros c Hc. apply Hlast. by apply (lstrip_last is_slash).
  - by vm_compute.
Qed.

End ValidatorsMore.

Lemma validate_name_and_channel_witness :
  Validators.validate_snap_name (Utils.VStr "  node-exporter ")
  = Ok (Utils.VStr "node-exporter") ∧
  Validators.validate_channel (Utils.VStr "node-exporter") = Ok (Utils.VStr "node-exporter").
Proof.
  assert (Validators.validate_snap_name (Utils.VStr "  node-exporter ")
          = Ok (Utils.VStr "node-exporter")) as E by (by vm_compute).
  split; [exact E|].
  destruct (validate_name_and_channel (Utils.VStr "  node-exporter ")
              (Utils.VStr "node-exporter") (or_introl E)) as [[H _]|(_ & _ & H)].
  - discriminate H.
  - exact H.
Defined.

Section PlugsMore.

Import Config Utils Validators Text.

Lemma has_char_app c a b :
  Registry.has_char c (a +:+ b) = Registry.has_char c a || Registry.has_char c b.
Proof.
  induction a as [|x a IH]; [done|].
  by rewrite append_cons, !has_char_cons, IH, orb_assoc.
Qed.

(** No piece of a split on one character holds that character. *)
Lemma split_char_pieces c s :
  Forall (λ piece, Registry.has_char c piece = false) (Py.split (String c "") s).
Proof.
  unfold Py.split. induction s as [|a s IH]; [by repeat constructor|].
  rewrite split_go_step. destruct (decide (c = a)) as [<-|Hne].
  - change (String c s) with (String c "" +:+ s). rewrite prefix_append.
    constructor; [done|exact IH].
  - assert (String.prefix (String c "") (String a s) = false) as ->.
    { simpl. by destruct (ascii_dec c a). }
    destruct (Py.split_go (String c "") 0 s) as [|piece pieces].
    + constructor; [|done]. rewrite has_char_cons.
      by rewrite bool_decide_eq_false_2 by done.
    + inversion IH as [|? ? Hp Hps]; subst. constructor; [|done].
      rewrite has_char_cons, Hp. by rewrite bool_decide_eq_false_2 by done.
Qed.

Lemma stripped_has_char p s out c :
  stripped_of p s out → Registry.has_char c s = false → Registry.has_char c out = false.
Proof.
  intros (l & r & -> & _) H. rewrite !has_char_app in H.
  apply orb_false_elim in H as [_ H]. by apply orb_false_elim in H as [H _].
Qed.

(** X25.  [validate_snap_plug], on the value of a string option, returns the
    pieces between the commas that are not blank, without the white space at
    their ends: a list that is not empty, of names that are not empty,
    neither start nor end with white space and hold no comma.  It raises
    exactly when every piece is blank. *)
Theorem validate_snap_plug_spec v :
  match validate_snap_plug (Some v) with
  | Ok r =>
      ∃ plugs, r = Some plugs ∧ plugs ≠ [] ∧
               Forall (λ plug, plug ≠ "" ∧ trimmed is_space plug ∧
                               Registry.has_char "," plug = false) plugs ∧
               ¬ Forall (λ piece, strip piece = "") (Py.split "," v)
  | Raise e =>
      e = ValueError "snap-plugs must contain at least one valid plug name" ∧
      Forall (λ piece, strip piece = "") (Py.split "," v)
  end.
Proof.
  unfold validate_snap_plug. cbv zeta.
  destruct (strip <$> filter (λ plug, strip plug ≠ "") (Py.split "," v))
    as [|plug plugs] eqn:E.
  - split; [done|]. apply fmap_nil_inv in E. apply Forall_forall. intros piece Hin.
    destruct (decide (strip piece = "")) as [|Hne]; [done|].
    by destruct (filter_nil_not_elem_of _ _ piece E Hne).
  - exists (plug :: plugs). split; [done|]. split; [done|]. split.
    + rewrite <- E. apply Forall_fmap, Forall_forall.
      intros piece [Hne Hin]%list_elem_of_filter. cbn [compose].
      destruct (strip_spec piece) as (l & r & Hp & Hl & Hr & Ht).
      split; [done|]. split; [done|].
      apply (stripped_has_char is_space piece); [apply strip_spec|].
      pose proof (split_char_pieces ","%char v) as Hall.
      rewrite Forall_forall in Hall. by apply Hall.
    + intros Hall. rewrite Forall_forall in Hall.
      destruct (filter (λ plug, strip plug ≠ "") (Py.split "," v)) as [|x xs] eqn:F;
        [done|].
      assert (x ∈ filter (λ plug, strip plug ≠ "") (Py.split "," v)) as Hx.
      { rewrite F. by left. }
      apply list_elem_of_filter in Hx as [Hne Hin]. by apply Hne, Hall.
Qed.

End PlugsMore.

Section RevisionMore.

Import Config Charm Scenario Validators.

Context (w : world).

Lemma check_channel_revision_post c0 c :
  check_channel_revision c0 = Ok c →
  (snap_channel c = None → ∃ rev, snap_revision c = Some rev) ∧
  (∀ ch, snap_channel c = Some ch → ch ≠ "" → snap_revision c = None).
Proof.
  unfold check_channel_revision.
  destruct (snap_channel c0) as [ch|] eqn:Hch, (snap_revision c0) as [rev|] eqn:Hrev.
  - destruct (decide (ch = "")) as [->|]; [|done]. intros [= <-].
    rewrite Hch. split; [done|]. by intros ch [= <-].
  - intros [= <-]. rewrite Hch, Hrev. by split.
  - intros [= <-]. rewrite Hch, Hrev. split; [by eauto|done].
  - intros [= <-]. cbn. split; [done|]. done.
Qed.

(** X26.  [check_channel_revision] accepts a configuration only with a
    channel or a revision, and never with a named channel and a revision; it
    is the last step of loading the options.  So when [_validate_config]
    succeeds on loaded options that name a snap, the stored configuration has
    a revision, and [_install] does not skip the snap: it registers it and
    asks for its installation at this revision. *)
Theorem named_snap_has_revision st st1 c0 c name :
  check_channel_revision c0 = Ok c →
  load_config w = inr c →
  _validate_config w st = (Ok tt, st1) →
  snap_client (conf st1) = Some name →
  ∃ rev, snap_revision (conf st1) = Some rev ∧
         ∃ rest, calls (_install w st1).2
                 = calls st1 ++ [Register name;
                                 SnapInstall name rev (snap_classic (conf st1))] ++ rest.
Proof.
  intros Hccr Hload Hval Hclient.
  destruct (check_channel_revision_post _ _ Hccr) as [Hnone _].
  assert (∃ rev, snap_revision (conf st1) = Some rev) as [rev Hrev].
  { unfold _validate_config in Hval. rewrite Hload in Hval.
    apply bind_inv in Hval as (c1 & s1 & H1 & Hval).
    apply bind_inv in Hval as (c2 & s2 & H2 & Hval).
    injection Hval as <-. cbn [conf with_conf] in *.
    assert (snap_revision c2 = snap_revision c1 ∧ snap_name c2 = snap_name c1)
      as [-> Hn2].
    { unfold ret, raise in H2. repeat case_match; by simplify_eq. }
    unfold snap_client in Hclient. rewrite Hn2 in Hclient.
    unfold ret, raise in H1. repeat case_match; simplify_eq; cbn in *;
      try congruence; eauto. }
  exists rev. split; [done|].
  unfold _install. rewrite bind_gets, Hclient, Hrev. cbv zeta.
  unfold bind, manager_register, ask, modify, raise, ret. cbn.
  destruct (snap_install w _ name rev _); cbn.
  - destruct (snap_enable_and_start w _ name); cbn; rewrite <- !app_assoc; by eexists.
  - rewrite <- !app_assoc. by exists [].
Qed.

End RevisionMore.

Lemma named_snap_has_revision_witness :
  let c := Scenario.config_of (Some "test-snap") (Some 10000) in
  let w := Scenario.world_of "app/0" c true true in
  let st := Scenario.state_of None ∅ in
  let st1 := Charm.with_conf (Config.set_snap_revision (Some 1) c) st in
  Validators.check_channel_revision c = Ok c ∧
  Charm._validate_config w st = (Ok tt, st1) ∧
  Charm.snap_client (Charm.conf st1) = Some "test-snap" ∧
  ∃ rev, Config.snap_revision (Charm.conf st1) = Some rev ∧
         ∃ rest, Charm.calls (Charm._install w st1).2
                 = Charm.calls st1
                   ++ [Charm.Register "test-snap";
                       Charm.SnapInstall "test-snap" rev
                         (Config.snap_classic (Charm.conf st1))] ++ rest.
Proof.
  intros c w st st1. split; [reflexivity|]. split; [reflexivity|]. split; [reflexivity|].
  exact (named_snap_has_revision w st st1 c c "test-snap" eq_refl eq_refl eq_refl eq_refl).
Defined.

(** ** The keys that [_configure] unsets *)

Section ConfigureMore.

Import Config Charm Scenario.

Context (w : world).

Lemma makes_bind {A B} c P (Q : A → Prop) (R : B → Prop) (m : M A) (k : A → M B) :
  makes c P Q m → (∀ a, Q a → makes c P R (k a)) → makes c P R (bind m k).
Proof.
  intros Hm Hk st Hc. unfold bind.
  destruct (Hm st Hc) as (Hc1 & (d1 & Hd1 & HP1) & HQ).
  destruct (m st) as [[a|e] st1]; cbn [fst snd] in *.
  - destruct (Hk a (HQ a eq_refl) st1 Hc1) as (Hc2 & (d2 & Hd2 & HP2) & HR).
    split; [done|]. split; [|done]. exists (d1 ++ d2).
    split; [by rewrite Hd2, Hd1, app_assoc|by apply Forall_app].
  - split; [done|]. split; [by exists d1|done].
Qed.

Lemma makes_then {A B} c P (R : B → Prop) (m : M A) (k : A → M B) :
  makes c P (λ _, True) m → (∀ a, makes c P R (k a)) → makes c P R (bind m k).
Proof. intros Hm Hk. apply (makes_bind c P (λ _, True)); [done|]. intros a _. apply Hk. Qed.

Lemma makes_ret {A} c P (Q : A → Prop) (a : A) : Q a → makes c P Q (ret a).
Proof.
  intros Ha st Hc. split; [done|]. split.
  - exists []. by rewrite app_nil_r.
  - by intros a' [= <-].
Qed.

Lemma makes_raise {A} c P (Q : A → Prop) e : makes c P Q (raise (A:=A) e).
Proof.
  intros st Hc. split; [done|]. split; [|done]. exists []. by rewrite app_nil_r.
Qed.

Lemma makes_ask {A} c (P : call → Prop) cl (answer : list call → A) :
  P cl → makes c P (λ _, True) (ask cl answer).
Proof.
  intros Hcl st Hc. split; [done|]. split; [|done]. exists [cl]. split; [done|].
  by apply Forall_singleton.
Qed.

Lemma bind_modify {B} f (k : unit → M B) st : bind (modify f) k st = k tt (f st).
Proof. reflexivity. Qed.

Lemma bind_ask {A B} cl (answer : list call → A) (k : A → M B) st :
  bind (ask cl answer) k st = k (answer (calls st)) (with_call cl st).
Proof. reflexivity. Qed.

Lemma bind_ret {A B} (a : A) (k : A → M B) st : bind (ret a) k st = k a st.
Proof. reflexivity. Qed.

Lemma bind_bind {A B C} (m : M A) (f : A → M B) (g : B → M C) st :
  bind (bind m f) g st = bind m (λ a, bind (f a) g) st.
Proof. unfold bind. by destruct (m st) as [[a|e] st']. Qed.

(** The steps of [_configure] that follow the unset of the stale keys. *)
Lemma makes_configure_tail c name (failed : string → M unit) :
  (∀ what, makes c no_unset (λ _, True) (failed what)) →
  makes c no_unset (λ _, True)
    ((match snap_config c with
      | Some (item :: items) =>
          let* set := ask (SnapSet name (item :: items))
                          (λ h, snap_set w h name (item :: items)) in
          if negb set then failed "set config for snap: " else ret tt
      | _ => ret tt
      end) >>
     (match snap_plugs c with
      | Some (plug :: plugs) =>
          let* connected := ask (SnapConnect name (plug :: plugs))
                                (λ h, snap_connect w h name (plug :: plugs)) in
          if negb connected
          then failed ("connect plugs " +:+ repr_list (plug :: plugs) +:+ " for snap: ")
          else ret tt
      | _ => ret tt
      end) >>
     let* started := ask (SnapEnableAndStart name)
                         (λ h, snap_enable_and_start w h name) in
     if negb started then failed "restart snap services for: " else ret tt).
Proof.
  intros Hfailed. apply makes_then.
  { destruct (snap_config c) as [[|item items]|]; try by apply makes_ret.
    apply makes_then; [apply makes_ask; exact I|intros set].
    destruct (negb set); [apply Hfailed|by apply makes_ret]. }
  intros _. apply makes_then.
  { destruct (snap_plugs c) as [[|plug plugs]|]; try by apply makes_ret.
    apply makes_then; [apply makes_ask; exact I|intros connected].
    destruct (negb connected); [apply Hfailed|by apply makes_ret]. }
  intros _. apply makes_then; [apply makes_ask; exact I|intros started].
  destruct (negb started); [apply Hfailed|by apply makes_ret].
Qed.

Lemma _set_workload_version_calls st :
  ∃ v, _set_workload_version w st = (Ok tt, with_call (SetWorkloadVersion v) st).
Proof.
  unfold _set_workload_version. rewrite bind_gets.
  destruct (snap_client (conf st)); by eexists.
Qed.

Lemma _get_snap_config_diff_calls st name :
  snap_client (conf st) = Some name →
  _get_snap_config_diff w st
  = (Ok (elements
           (Utils.keys (Utils.flatten_dict (snap_get_config w (calls st) name) "")
            ∖ Utils.keys (Utils.flatten_dict (default [] (snap_config (conf st))) ""))),
     with_call (SnapGetConfig name) st).
Proof.
  intros Hname. unfold _get_snap_config_diff. rewrite bind_gets, Hname. reflexivity.
Qed.

(** The calls of [_configure]: either no unset is among them, or exactly
    one, right after the configuration of the snap was read. *)
Lemma _configure_shape st :
  conf (_configure w st).2 = conf st ∧
  ∃ delta, calls (_configure w st).2 = calls st ++ delta ∧
    (Forall no_unset delta ∨
     ∃ name pre post ks,
       snap_client (conf st) = Some name ∧
       delta = pre ++ [SnapGetConfig name; SnapUnset name ks] ++ post ∧
       Forall no_unset pre ∧ Forall no_unset post ∧ ks ≠ [] ∧
       ks = elements
              (Utils.keys
                 (Utils.flatten_dict (snap_get_config w (calls st ++ pre) name) "")
               ∖ Utils.keys
                   (Utils.flatten_dict (default [] (snap_config (conf st))) ""))).
Proof.
  unfold _configure, _configure_alerts.
  destruct (_set_workload_version_calls st) as [v H1].
  rewrite (bind_ok _ _ _ _ _ H1), bind_modify, bind_gets.
  cbn [conf with_call]. set (c := conf st).
  destruct (snap_client c) as [name|] eqn:Hname.
  2:{ split; [done|]. exists [SetWorkloadVersion v; ConfigureAlerts].
      split; [cbn; by rewrite <- app_assoc|]. left. by repeat constructor. }
  destruct (snap_revision c) as [rev|] eqn:Hrev.
  2:{ split; [done|]. exists [SetWorkloadVersion v; ConfigureAlerts].
      split; [cbn; by rewrite <- app_assoc|]. left. by repeat constructor. }
  cbv zeta. rewrite !bind_ask.
  set (pre := [SetWorkloadVersion v; ConfigureAlerts; SnapDisableAndStop name;
               SnapEnsure name rev (snap_classic c)]).
  set (st4 := with_call (SnapEnsure name rev (snap_classic c))
                (with_call (SnapDisableAndStop name)
                   (with_call ConfigureAlerts (with_call (SetWorkloadVersion v) st)))).
  assert (calls st4 = calls st ++ pre) as Hc4.
  { unfold st4, pre. cbn. by rewrite <- !app_assoc. }
  assert (conf st4 = c) as Hconf4 by done.
  assert (snap_client (conf st4) = Some name) as Hname4 by done.
  pose proof (_get_snap_config_diff_calls st4 name Hname4) as Hdiff.
  rewrite Hc4 in Hdiff. change (conf st4) with c in Hdiff.
  assert (Forall no_unset pre) as Hpre by (by repeat constructor).
  pose proof (makes_configure_tail c name
                (λ what, raise (CharmConfigError
                                  ("Failed to " +:+ what +:+ str_opt (snap_name c)
                                   +:+ ". " +:+ SEE_LOG)))
                (λ what, makes_raise c no_unset _ _)) as Htail.
  cbv beta in Htail.
  change (with_call (SnapEnsure name rev (snap_classic c)) _) with st4.
  destruct (snap_ensure w _ name rev _); cbn [negb].
  2:{ split; [done|]. exists pre. split; [exact Hc4|]. by left. }
  rewrite (bind_ok _ _ _ _ _ Hdiff).
  set (st5 := with_call (SnapGetConfig name) st4).
  assert (calls st5 = calls st ++ pre ++ [SnapGetConfig name]) as Hc5.
  { unfold st5. cbn [calls with_call]. by rewrite Hc4, <- app_assoc. }
  destruct (elements _) as [|k ks] eqn:Hks.
  - rewrite bind_ret.
    destruct (Htail st5 eq_refl) as (Hc & (post & Hp & HP) & _).
    split; [exact Hc|]. exists (pre ++ [SnapGetConfig name] ++ post).
    split; [by rewrite Hp, Hc5, <- !app_assoc|]. left.
    apply Forall_app. split; [done|]. apply Forall_app. split; [|done].
    by repeat constructor.
  - rewrite bind_bind, bind_ask.
    set (st6 := with_call (SnapUnset name (k :: ks)) st5).
    assert (calls st6
            = calls st ++ pre ++ [SnapGetConfig name; SnapUnset name (k :: ks)]) as Hc6.
    { unfold st6. cbn [calls with_call]. rewrite Hc5, <- !app_assoc. done. }
    destruct (snap_unset w (calls st5) name (k :: ks)); cbn [negb].
    + rewrite bind_ret.
      destruct (Htail st6 eq_refl) as (Hc & (post & Hp & HP) & _).
      split; [exact Hc|].
      exists (pre ++ [SnapGetConfig name; SnapUnset name (k :: ks)] ++ post).
      split; [by rewrite Hp, Hc6, <- !app_assoc|]. right.
      exists name, pre, post, (k :: ks). by rewrite Hks.
    + split; [done|].
      exists (pre ++ [SnapGetConfig name; SnapUnset name (k :: ks)] ++ []).
      split; [by rewrite app_nil_r|]. right.
      exists name, pre, [], (k :: ks). by rewrite Hks.
Qed.

(** X27.  Whatever the package manager answers, [_configure] leaves the
    configuration of the charm as it is and asks at most one unset of the
    snap that the configuration names, right after it has read the
    configuration of the snap.  The unset names at least one key, names no
    key twice, and names exactly the flattened keys that the configuration
    read from the snap has and that the configuration of the charm does not
    set. *)
Theorem configure_unsets_stale_keys st :
  conf (_configure w st).2 = conf st ∧
  ∃ delta, calls (_configure w st).2 = calls st ++ delta ∧
    ∀ name ks, SnapUnset name ks ∈ delta →
      snap_client (conf st) = Some name ∧
      ∃ pre post,
        delta = pre ++ [SnapGetConfig name; SnapUnset name ks] ++ post ∧
        (∀ name' ks', SnapUnset name' ks' ∉ pre ++ post) ∧
        ks ≠ [] ∧ NoDup ks ∧
        ∀ k, k ∈ ks ↔
             k ∈ Utils.keys
                   (Utils.flatten_dict (snap_get_config w (calls st ++ pre) name) "") ∧
             k ∉ Utils.keys
                   (Utils.flatten_dict (default [] (snap_config (conf st))) "").
Proof.
  assert (∀ l name ks, Forall no_unset l → SnapUnset name ks ∉ l) as Hno.
  { intros l name ks Hl Hin. rewrite Forall_forall in Hl. exact (Hl _ Hin). }
  destruct (_configure_shape st) as (Hc & delta & Hd & Hshape).
  split; [exact Hc|]. exists delta. split; [exact Hd|]. intros name ks Hin.
  destruct Hshape as [Hall|(name0 & pre & post & ks0 & Hname & -> & Hpre & Hpost & Hne & Hks)].
  { by destruct (Hno _ _ _ Hall Hin). }
  assert (name = name0 ∧ ks = ks0) as [-> ->].
  { apply elem_of_app in Hin as [Hin|Hin]; [by destruct (Hno _ _ _ Hpre Hin)|].
    apply elem_of_cons in Hin as [Hin|Hin]; [done|].
    apply elem_of_cons in Hin as [[= -> ->]|Hin]; [done|].
    by destruct (Hno _ _ _ Hpost Hin). }
  split; [exact Hname|]. exists pre, post. split; [done|]. split.
  { intros name' ks' Hin'. apply (Hno (pre ++ post) name' ks'); [|done].
    by apply Forall_app. }
  split; [exact Hne|]. split; [rewrite Hks; apply NoDup_elements|].
  intros k. rewrite Hks at 1. by rewrite elem_of_elements, elem_of_difference.
Qed.

End ConfigureMore.
